(** * video_gen: the input-adapter base classes and the document adapter

    The development follows the repository layout.

    - [Py]: the fragment of Python's exception model that the adapter
      modules rely on ([except RuntimeError], [except Exception],
      [try ... finally]).
    - [Models]: [InputAdapterResult] and the dynamically typed value that
      [adapt] hands to [parse].
    - [Asyncio]: threads, event loops and the calls of [asyncio] and
      [concurrent.futures] made by the two [parse] wrappers, as a state
      monad over a world that records an event trace.
    - [Base]: [video_gen/input_adapters/base.py].
    - [BaseFixed]: [video_gen/input_adapters/base_fixed.py].
    - [RuntimeValues]: a value of [adapt] as each of the two modules
      sorts it with [isinstance].
    - [Scenes], [Text], [DocumentAdapter]: the scene model and the document
      adapter, whose modules are not among the sources and are modelled
      from the specification.
    - [GenerateAudio], [GenerateNarrativeAudio]: the voice tables of
      [scripts/generate_audio.py] and
      [sinonimos_de_ver/scripts/generate_narrative_audio.py].
    - [OpenmmRunner]: the production loop of
      [lab_visualizer/.../md-simulation/openmm-runner.py].
    - [Posix], [Instances]: the POSIX flavour of [pathlib] and the concrete
      values used in examples.
    - [DocumentStructure]: a document as headings and the lines under
      them, which is what the document adapter is meant to recover.

    The properties follow the definitions. *)

From Stdlib Require Import String Ascii List Bool Arith ZArith Lia.
Import ListNotations.
Open Scope string_scope.

(* ===================================================================== *)
(** ** Python exceptions *)
(* ===================================================================== *)

Module Py.

(** An exception instance: the name of its class, the names of the classes
    it inherits from and [str(e)]. *)
Record exn := mk_exn {
  exn_class : string;
  exn_bases : list string;
  exn_str : string
}.

Definition mem_string (x : string) (l : list string) : bool :=
  existsb (String.eqb x) l.

(** [isinstance(e, cls)], which is what an [except cls:] clause tests. *)
Definition isinstance (e : exn) (cls : string) : bool :=
  String.eqb (exn_class e) cls || mem_string cls (exn_bases e).

(** The built-in classes raised by the adapter modules and by asyncio. *)
Definition ValueError (msg : string) : exn :=
  mk_exn "ValueError" ["Exception"; "BaseException"] msg.

Definition TypeError (msg : string) : exn :=
  mk_exn "TypeError" ["Exception"; "BaseException"] msg.

Definition RuntimeError (msg : string) : exn :=
  mk_exn "RuntimeError" ["Exception"; "BaseException"] msg.

Definition OSError (msg : string) : exn :=
  mk_exn "OSError" ["Exception"; "BaseException"] msg.

Definition FileNotFoundError (msg : string) : exn :=
  mk_exn "FileNotFoundError" ["OSError"; "Exception"; "BaseException"] msg.

Definition has_ascii (c : ascii) (s : string) : bool :=
  existsb (Ascii.eqb c) (list_ascii_of_string s).

Definition single_quote : ascii := ascii_of_nat 39.
Definition double_quote : ascii := ascii_of_nat 34.
Definition backslash : ascii := ascii_of_nat 92.

Definition hex_digit (n : nat) : ascii :=
  nth n (list_ascii_of_string "0123456789abcdef") (ascii_of_nat 48).

(** One character inside [repr(s)]: the quote in use and the backslash
    are escaped, tab, newline and carriage return are written with their
    letters and the other control characters of ASCII as [\xNN]. *)
Definition repr_char (quote c : ascii) : string :=
  let n := nat_of_ascii c in
  if Ascii.eqb c quote || Ascii.eqb c backslash
  then String backslash (String c "")
  else if Nat.eqb n 9 then String backslash "t"
  else if Nat.eqb n 10 then String backslash "n"
  else if Nat.eqb n 13 then String backslash "r"
  else if Nat.ltb n 32 || Nat.eqb n 127
  then String backslash
         (String "x" (String (hex_digit (n / 16)) (String (hex_digit (n mod 16)) "")))
  else String c "".

(** [repr(s)] of a [str], held as its UTF-8 bytes: in single quotes, or in
    double quotes when [s] has a single quote and no double one. The bytes
    of a character outside ASCII are passed on, as [repr] does for the
    printable ones. *)
Definition repr (s : string) : string :=
  let quote :=
    if has_ascii single_quote s && negb (has_ascii double_quote s)
    then double_quote else single_quote in
  String quote
    (String.concat "" (map (repr_char quote) (list_ascii_of_string s))
     ++ String quote "").

(** [KeyError(key)] for a key that is a [str]: [str(e)] is [repr(key)]. *)
Definition KeyError (key : string) : exn :=
  mk_exn "KeyError" ["LookupError"; "Exception"; "BaseException"] (repr key).

Definition ZeroDivisionError (msg : string) : exn :=
  mk_exn "ZeroDivisionError" ["ArithmeticError"; "Exception"; "BaseException"] msg.

(** [asyncio.CancelledError] derives from [BaseException] only (Python 3.8
    and later), like [KeyboardInterrupt] and [SystemExit]. *)
Definition CancelledError (msg : string) : exn :=
  mk_exn "CancelledError" ["BaseException"] msg.

(** What a call does: it returns a value or raises. *)
Inductive outcome (A : Type) : Type :=
| Return (a : A)
| Raise (e : exn).
Arguments Return {A} a.
Arguments Raise {A} e.

Definition raises {A} (o : outcome A) : bool :=
  match o with Return _ => false | Raise _ => true end.

(** [str(x)] of an [Optional[str]], as an f-string formats it. *)
Definition str_optional (o : option string) : string :=
  match o with Some s => s | None => "None" end.

End Py.

(* ===================================================================== *)
(** ** Values exchanged between [adapt] and [parse] *)
(* ===================================================================== *)

Module Models.

(** [VideoSet] is declared in [shared/models.py]; the wrappers only pass
    it on and test it for truth ([result.success and result.video_set]).
    [vs_truth] is Python's truth value of an instance. *)
Class VideoSetClass := {
  VideoSet : Type;
  vs_truth : VideoSet -> bool
}.

Section WithVideoSet.
Context {VS : VideoSetClass}.

(** The dataclass [InputAdapterResult]; [metadata] is a dict of strings. *)
Record InputAdapterResult := mk_result {
  success : bool;
  video_set : option VideoSet;
  error : option string;
  metadata : list (string * string)
}.

(** What [adapt] may hand back at run time, as the [isinstance] tests of
    the module at hand sort it: Python checks none of the annotations.
    [IsInputAdapterResult] is an instance of the class that the module
    calls [InputAdapterResult] ([base.py] declares its own,
    [base_fixed.py] imports one from [shared.models]). For a value of
    another type, [type_repr] is [str(type(result))]. *)
Inductive adapt_value : Type :=
| IsInputAdapterResult (r : InputAdapterResult)
| IsVideoSet (v : VideoSet)
| IsOther (type_repr : string).

(** Truth value of an [Optional[VideoSet]]. *)
Definition truth_optional (o : option VideoSet) : bool :=
  match o with
  | None => false
  | Some v => vs_truth v
  end.

End WithVideoSet.
End Models.

(* ===================================================================== *)
(** ** Threads and event loops *)
(* ===================================================================== *)

Module Asyncio.
Import Py Models.

Definition thread_id := nat.
Definition loop_id := nat.

Section WithVideoSet.
Context {VS : VideoSetClass}.

(** The coroutine that the wrappers hand to asyncio is
    [self.adapt(source, **kwargs)]; a coroutine is given by what it does
    when a loop drives it to its end. *)
Definition coroutine : Type := outcome adapt_value.

(** What the wrappers do to threads and loops, in program order.
    [LoopSet t l] is [asyncio.set_event_loop(l)] and [LoopUnset t] is
    [asyncio.set_event_loop(None)] on thread [t]. [CoroutineRun t l coro]:
    the coroutine [coro] was driven to completion by loop [l] on thread
    [t]. [Joined p c]: [p] blocked in [future.result()] until the worker
    [c] was done. [RunRefused t l]: asyncio refused to start a loop on [t]
    because [l] is running there. *)
Inductive event : Type :=
| LoopCreated (t : thread_id) (l : loop_id)
| LoopSet (t : thread_id) (l : loop_id)
| LoopUnset (t : thread_id)
| CoroutineRun (t : thread_id) (l : loop_id) (coro : coroutine)
| LoopClosed (l : loop_id)
| WorkerSpawned (parent child : thread_id)
| Joined (parent child : thread_id)
| RunRefused (t : thread_id) (active : loop_id).

(** [running w t] is the loop that [asyncio.get_running_loop()] finds on
    thread [t]. Loops and threads are numbered in creation order. *)
Record world := mk_world {
  running : thread_id -> option loop_id;
  next_loop : loop_id;
  next_thread : thread_id;
  trace : list event
}.

Definition log (ev : event) (w : world) : world :=
  mk_world (running w) (next_loop w) (next_thread w) (trace w ++ [ev]).

(** Computations that act on the world and may raise. *)
Definition M (A : Type) : Type := world -> outcome A * world.

Definition lift {A} (o : outcome A) : M A := fun w => (o, w).

Definition bind {A B} (m : M A) (k : A -> M B) : M B :=
  fun w =>
    match m w with
    | (Return a, w1) => k a w1
    | (Raise e, w1) => (Raise e, w1)
    end.

Definition emit (ev : event) : M unit := fun w => (Return tt, log ev w).

(** [try: body / except cls: handler] *)
Definition try_except {A} (body : M A) (cls : string) (handler : M A) : M A :=
  fun w =>
    match body w with
    | (Return a, w1) => (Return a, w1)
    | (Raise e, w1) => if isinstance e cls then handler w1 else (Raise e, w1)
    end.

(** [try: body / finally: cleanup], for a cleanup that does not raise. *)
Definition try_finally {A} (body : M A) (cleanup : M unit) : M A :=
  fun w =>
    match body w with
    | (o, w1) => (o, snd (cleanup w1))
    end.

End WithVideoSet.

Declare Scope py_scope.
Delimit Scope py_scope with py.
Notation "x <- m ;; k" := (bind m (fun x => k))
  (at level 61, m at next level, right associativity) : py_scope.
Notation "m ;;; k" := (bind m (fun _ => k))
  (at level 61, right associativity) : py_scope.

Section Calls.
Context {VS : VideoSetClass}.

(** [asyncio.get_running_loop()] on thread [t]. *)
Definition get_running_loop (t : thread_id) : M loop_id :=
  fun w =>
    match running w t with
    | Some l => (Return l, w)
    | None => (Raise (RuntimeError "no running event loop"), w)
    end.

(** [asyncio.new_event_loop()] on thread [t]. *)
Definition new_event_loop (t : thread_id) : M loop_id :=
  fun w =>
    let l := next_loop w in
    (Return l,
     log (LoopCreated t l) (mk_world (running w) (S l) (next_thread w) (trace w))).

(** [asyncio.set_event_loop(l)] on thread [t]. *)
Definition set_event_loop (t : thread_id) (l : loop_id) : M unit :=
  emit (LoopSet t l).

(** [asyncio.set_event_loop(None)] on thread [t]. *)
Definition unset_event_loop (t : thread_id) : M unit :=
  emit (LoopUnset t).

(** [l.run_until_complete(coro)] on thread [t]: asyncio checks first that no
    loop is running on the thread, then drives the coroutine to its end;
    what the coroutine returns or raises is what the call returns or
    raises. *)
Definition run_until_complete (t : thread_id) (l : loop_id)
    (coro : coroutine) : M adapt_value :=
  fun w =>
    match running w t with
    | Some active =>
        (Raise (RuntimeError
                  "Cannot run the event loop while another loop is running"),
         log (RunRefused t active) w)
    | None => (coro, log (CoroutineRun t l coro) w)
    end.

(** [l.close()] *)
Definition loop_close (l : loop_id) : M unit := emit (LoopClosed l).

(** [asyncio.run(coro)] on thread [t]: refuses under a running loop, else
    makes a loop of its own, sets it as the thread's current loop and runs
    the coroutine on it; on the way out it unsets the current loop and
    closes the loop it made. *)
Definition asyncio_run (t : thread_id) (coro : coroutine) : M adapt_value :=
  fun w =>
    match running w t with
    | Some active =>
        (Raise (RuntimeError
                  "asyncio.run() cannot be called from a running event loop"),
         log (RunRefused t active) w)
    | None =>
        (l <- new_event_loop t ;;
         set_event_loop t l ;;;
         try_finally (run_until_complete t l coro)
           (unset_event_loop t ;;; loop_close l))%py w
    end.

(** [with ThreadPoolExecutor() as executor: executor.submit(job).result()]
    called on thread [t]: the job runs on a new thread, which has no running
    loop; [t] waits for it and gets its value or its exception. *)
Definition submit_and_wait {A} (t : thread_id) (job : thread_id -> M A) : M A :=
  fun w =>
    let t' := next_thread w in
    let w1 :=
      mk_world (fun x => if Nat.eqb x t' then None else running w x)
               (next_loop w) (S t') (trace w ++ [WorkerSpawned t t']) in
    match job t' w1 with
    | (o, w2) => (o, log (Joined t t') w2)
    end.

(** The events of a thread that makes a loop, sets it, drives [coro] on it
    and closes it; [asyncio.run] unsets the current loop before it closes
    its loop ([unset]), [_run_async_in_new_loop] does not. *)
Definition own_loop_events (unset : bool) (t : thread_id) (l : loop_id)
    (coro : coroutine) : list event :=
  [LoopCreated t l; LoopSet t l; CoroutineRun t l coro]
  ++ (if unset then [LoopUnset t] else []) ++ [LoopClosed l].

(** The world after thread [t] has run [coro] on a loop of its own and
    closed the loop. *)
Definition after_own_loop (unset : bool) (t : thread_id) (coro : coroutine)
    (w : world) : world :=
  mk_world (running w) (S (next_loop w)) (next_thread w)
    (trace w ++ own_loop_events unset t (next_loop w) coro).

(** The world after a worker thread has run [coro] on a loop of its own
    and the caller [t] has joined it. *)
Definition after_worker (unset : bool) (t : thread_id) (coro : coroutine)
    (w : world) : world :=
  mk_world (fun x => if Nat.eqb x (next_thread w) then None else running w x)
    (S (next_loop w)) (S (next_thread w))
    (trace w ++ [WorkerSpawned t (next_thread w)]
     ++ own_loop_events unset (next_thread w) (next_loop w) coro
     ++ [Joined t (next_thread w)]).

(** The world after thread [t] made a loop under the running loop [active]
    and asyncio refused to run it. *)
Definition after_refused_loop (t : thread_id) (active : loop_id) (w : world)
    : world :=
  mk_world (running w) (S (next_loop w)) (next_thread w)
    (trace w ++ [LoopCreated t (next_loop w); LoopSet t (next_loop w);
                 RunRefused t active; LoopClosed (next_loop w)]).

(** The world in which a wrapper ends: one of four shapes, by the state of
    the thread and by what [adapt] did. *)
Definition ends_in (unset : bool) (t : thread_id) (adapt : coroutine)
    (w w' : world) : Prop :=
  w' = after_own_loop unset t adapt w \/
  w' = after_worker unset t adapt w \/
  (exists active,
     w' = log (RunRefused t active) (after_worker unset t adapt w)) \/
  (exists active,
     w' = after_refused_loop t active (after_worker unset t adapt w)).

(** The events a call added to the trace. *)
Definition events_since (w w' : world) : list event :=
  skipn (length (trace w)) (trace w').



(** The loops created by a trace, with the thread that made each. *)
Fixpoint loops_created (evs : list event) : list (thread_id * loop_id) :=
  match evs with
  | [] => []
  | LoopCreated t l :: rest => (t, l) :: loops_created rest
  | _ :: rest => loops_created rest
  end.




(** Threads and loops in use were numbered before the counters. *)
Definition wf_world (w : world) : Prop :=
  forall t l, running w t = Some l -> t < next_thread w /\ l < next_loop w.

End Calls.
End Asyncio.

(* ===================================================================== *)
(** ** [input_adapters/base.py] *)
(* ===================================================================== *)

Module Base.
Import Py Asyncio Models.

Section WithVideoSet.
Context {VS : VideoSetClass}.

(** Lines 82-91 of [InputAdapter.parse]: the value handed back by [adapt]
    is inspected with [isinstance]. What is returned is the attribute
    [result.video_set] itself, an [Optional[VideoSet]]. *)
Definition handle_result (result : adapt_value) : outcome (option VideoSet) :=
  match result with
  | IsInputAdapterResult r =>
      if success r && truth_optional (video_set r)
      then Return (video_set r)
      else Raise (ValueError ("Adapter failed: " ++ str_optional (error r)))
  | IsVideoSet v => Return (Some v)
  | IsOther type_repr =>
      Raise (TypeError ("Unexpected result type: " ++ type_repr))
  end.

(** What [parse] hands back once [adapt] has been driven to its end. *)
Definition settle (adapt : outcome adapt_value) : outcome (option VideoSet) :=
  match adapt with
  | Return result => handle_result result
  | Raise e => Raise e
  end.

(** [InputAdapter.parse], called on thread [t]. [adapt] is what the
    coroutine [self.adapt(source, **kwargs)] does when a loop drives it;
    the method is abstract in this class. *)
Definition parse (t : thread_id) (adapt : outcome adapt_value)
    : M (option VideoSet) :=
  (result <-
     try_except
       (loop <- get_running_loop t ;;
        submit_and_wait t (fun worker => asyncio_run worker adapt))
       "RuntimeError"
       (asyncio_run t adapt) ;;
   lift (handle_result result))%py.

(** [adapt] came back with a video set [v]: directly, or in a result that
    reports success. *)
Definition produced (adapt : outcome adapt_value) (v : VideoSet) : Prop :=
  adapt = Return (IsVideoSet v) \/
  exists r, adapt = Return (IsInputAdapterResult r) /\
            success r = true /\ video_set r = Some v.

End WithVideoSet.
End Base.

(* ===================================================================== *)
(** ** [input_adapters/base_fixed.py] *)
(* ===================================================================== *)

Module BaseFixed.
Import Py Asyncio Models.

(** [pathlib.Path] as the module uses it: construction from a string and
    [str(path)]. The flavour (POSIX or Windows) fixes both. *)
Class PathLib := {
  Path : Type;
  Path_of_str : string -> Path;
  str_of_Path : Path -> string
}.

Section WithClasses.
Context {VS : VideoSetClass} {PL : PathLib}.

(** A [source] argument at run time: a [str], a [Path], or a value of
    another type, given by [str(type(source))] and [str(source)]. *)
Inductive source : Type :=
| SourceStr (s : string)
| SourcePath (p : Path)
| SourceOther (type_repr : string) (str_repr : string).

Definition str_of_source (src : source) : string :=
  match src with
  | SourceStr s => s
  | SourcePath p => str_of_Path p
  | SourceOther _ s => s
  end.

(** [s.startswith(prefixes)] for a tuple of prefixes. *)
Definition startswith (prefixes : list string) (s : string) : bool :=
  existsb (fun p => String.prefix p s) prefixes.

(** Lines 146-150 of [_validate_source], for a [source] that is a [Path].
    [path_exists] is [Path.exists] on the file system of the call: it
    answers, or it raises the [OSError] that [stat] met when that is none
    of the errors [pathlib] reads as a missing file (a name that is too
    long, for one). [not source.exists()] is evaluated first. *)
Definition check_exists (path_exists : Path -> outcome bool) (p : Path)
    : outcome Path :=
  match path_exists p with
  | Raise e => Raise e
  | Return found =>
      if negb found
         && negb (startswith ["http://"; "https://"] (str_of_Path p))
      then Raise (FileNotFoundError ("Source file not found: " ++ str_of_Path p))
      else Return p
  end.

(** [BaseAdapter._validate_source]: a [str] is turned into a [Path], a
    value that is neither is refused. *)
Definition _validate_source (path_exists : Path -> outcome bool) (src : source)
    : outcome Path :=
  match src with
  | SourceStr s => check_exists path_exists (Path_of_str s)
  | SourcePath p => check_exists path_exists p
  | SourceOther type_repr _ =>
      Raise (ValueError ("Invalid source type: " ++ type_repr))
  end.

(** The class of the exception a call raised, if it raised. *)
Definition raised_class {A} (o : outcome A) : option string :=
  match o with
  | Return _ => None
  | Raise e => Some (exn_class e)
  end.

(** The [Path] that [_validate_source] examines. *)
Definition source_path (src : source) : option Path :=
  match src with
  | SourceStr s => Some (Path_of_str s)
  | SourcePath p => Some p
  | SourceOther _ _ => None
  end.

(** The [except Exception as e:] clause of [adapt]; [current] is what the
    variable [source] holds when the exception arrives. *)
Definition adapt_handler (test_mode : bool) (current : source) (e : exn)
    : outcome adapt_value :=
  if isinstance e "Exception" then
    if test_mode then Raise e
    else Return (IsInputAdapterResult
                   (mk_result false None (Some (exn_str e))
                      [("source", str_of_source current)]))
  else Raise e.

(** [BaseAdapter.adapt]. [perform] is the subclass's
    [_perform_adaptation]. *)
Definition adapt (test_mode : bool) (path_exists : Path -> outcome bool)
    (perform : Path -> outcome VideoSet) (src : source)
    : outcome adapt_value :=
  match _validate_source path_exists src with
  | Raise e => adapt_handler test_mode src e
  | Return p =>
      match perform p with
      | Raise e => adapt_handler test_mode (SourcePath p) e
      | Return video_set =>
          if test_mode then Return (IsVideoSet video_set)
          else Return (IsInputAdapterResult
                         (mk_result true (Some video_set) None
                            [("source", str_of_Path p)]))
      end
  end.

(** [BaseAdapter._run_async_in_new_loop] on thread [t]. *)
Definition _run_async_in_new_loop (t : thread_id) (adapt : outcome adapt_value)
    : M (option VideoSet) :=
  (loop <- new_event_loop t ;;
   set_event_loop t loop ;;;
   try_finally
     (result <- run_until_complete t loop adapt ;;
      lift (Base.handle_result result))
     (loop_close loop))%py.

(** [BaseAdapter.parse] on thread [t]. *)
Definition parse (t : thread_id) (adapt : outcome adapt_value)
    : M (option VideoSet) :=
  try_except
    (loop <- get_running_loop t ;;
     submit_and_wait t (fun worker => _run_async_in_new_loop worker adapt))%py
    "RuntimeError"
    (_run_async_in_new_loop t adapt).

End WithClasses.
End BaseFixed.

(* ===================================================================== *)
(** ** One value, two modules *)
(* ===================================================================== *)

Module RuntimeValues.
Import Py Models.

Section WithVideoSet.
Context {VS : VideoSetClass}.

(** A value at run time, before a module has looked at it. The two
    modules test [isinstance(result, InputAdapterResult)] against
    different names: [base.py] against the dataclass it declares (lines
    16-34), [base_fixed.py] against the name it imports from
    [shared.models] (line 12). An object with the fields of a result is an
    instance of the first ([of_base]), of the second ([of_shared]), or of
    both when the two names are bound to one class; [type_repr] is
    [str(type(value))]. *)
Inductive runtime_value : Type :=
| ResultObject (of_base of_shared : bool) (type_repr : string)
    (r : InputAdapterResult)
| VideoSetObject (v : VideoSet)
| OtherObject (type_repr : string).

(** The value as the [isinstance] tests of [base.py] sort it. *)
Definition seen_by_base (x : runtime_value) : adapt_value :=
  match x with
  | ResultObject of_base _ type_repr r =>
      if of_base then IsInputAdapterResult r else IsOther type_repr
  | VideoSetObject v => IsVideoSet v
  | OtherObject type_repr => IsOther type_repr
  end.

(** The value as the [isinstance] tests of [base_fixed.py] sort it. *)
Definition seen_by_fixed (x : runtime_value) : adapt_value :=
  match x with
  | ResultObject _ of_shared type_repr r =>
      if of_shared then IsInputAdapterResult r else IsOther type_repr
  | VideoSetObject v => IsVideoSet v
  | OtherObject type_repr => IsOther type_repr
  end.

(** What [adapt] does, as one of the modules sees it. *)
Definition as_seen (see : runtime_value -> adapt_value)
    (o : outcome runtime_value) : outcome adapt_value :=
  match o with
  | Return x => Return (see x)
  | Raise e => Raise e
  end.

(** [adapt] returned a result object that is an instance of one of the two
    classes only. *)
Definition one_class_only (o : outcome runtime_value) : bool :=
  match o with
  | Return (ResultObject of_base of_shared _ _) => xorb of_base of_shared
  | _ => false
  end.

End WithVideoSet.
End RuntimeValues.

(* ===================================================================== *)
(** ** The scene model and the document adapter *)
(* ===================================================================== *)

Module Scenes.

(** Modelled from the spec: the scene model of [shared/models.py], which is
    not among the sources. Section 3: a scene has a [type] out of the
    registered scene types and a mapping [fields] of type-specific keys; a
    video is an ordered sequence of scenes with a title; a video set holds
    one or more videos. The tests read scenes as mappings with the keys
    [title], [subtitle], [header], [commands], [items], [main_text]. *)
Inductive scene_type : Type :=
| Title | Command | List | Outro | Quiz | LearningObjectives
| Exercise | Checkpoint | Quote | CodeComparison | Problem | Solution.

Definition scene_type_eqb (a b : scene_type) : bool :=
  match a, b with
  | Title, Title | Command, Command | List, List | Outro, Outro
  | Quiz, Quiz | LearningObjectives, LearningObjectives
  | Exercise, Exercise | Checkpoint, Checkpoint | Quote, Quote
  | CodeComparison, CodeComparison | Problem, Problem
  | Solution, Solution => true
  | _, _ => false
  end.

(** Modelled from the spec: a value of the [fields] mapping, a text or a
    list of lines (command lines, list items). *)
Inductive field_value : Type :=
| Text (s : string)
| Lines (l : list string).

(** Modelled from the spec: [Scene], "one visual beat", with its type and
    its fields. *)
Record Scene := mk_scene {
  type : scene_type;
  fields : list (string * field_value)
}.

(** Modelled from the spec: [Video], an "ordered sequence of Scenes plus
    video_id, title". *)
Record Video := mk_video {
  video_id : string;
  title : string;
  scenes : list Scene
}.

(** Modelled from the spec: [VideoSet], "one or more Videos plus set-level
    configuration (set_id, set_name)". *)
Record VideoSet := mk_video_set {
  set_id : string;
  set_name : string;
  videos : list Video
}.

(** Modelled from the spec: the error kinds of section 7 that adapters
    return. *)
Inductive AdaptationError : Type :=
| StructureError (msg : string)
| SourceNotFound (msg : string).

Definition scene_types (v : Video) : list scene_type := map type (scenes v).


End Scenes.

Module Text.

(** [c.isspace()] for the characters of [string.whitespace]. *)
Definition is_space (c : ascii) : bool :=
  let n := nat_of_ascii c in
  Nat.eqb n 32 || Nat.eqb n 9 || Nat.eqb n 10 || Nat.eqb n 11
  || Nat.eqb n 12 || Nat.eqb n 13.

Fixpoint all_chars (p : ascii -> bool) (s : string) : bool :=
  match s with
  | EmptyString => true
  | String c rest => p c && all_chars p rest
  end.

(** A string that [s.strip()] empties. *)
Definition is_blank (s : string) : bool := all_chars is_space s.

Fixpoint lstrip (s : string) : string :=
  match s with
  | EmptyString => EmptyString
  | String c rest => if is_space c then lstrip rest else s
  end.

Fixpoint rstrip (s : string) : string :=
  match s with
  | EmptyString => EmptyString
  | String c rest =>
      match rstrip rest with
      | EmptyString => if is_space c then EmptyString else String c EmptyString
      | kept => String c kept
      end
  end.

Definition strip (s : string) : string := rstrip (lstrip s).

(** [s.split(sep)] for a one-character separator. *)
Fixpoint split_on (sep : ascii) (s : string) : list string :=
  match s with
  | EmptyString => [EmptyString]
  | String c rest =>
      if Ascii.eqb c sep then EmptyString :: split_on sep rest
      else
        match split_on sep rest with
        | [] => [String c EmptyString]
        | piece :: more => String c piece :: more
        end
  end.

(** [sep.join(parts)] *)
Fixpoint join (sep : string) (parts : list string) : string :=
  match parts with
  | [] => EmptyString
  | [p] => p
  | p :: more => p ++ sep ++ join sep more
  end.

Fixpoint drop_while (p : ascii -> bool) (s : string) : string :=
  match s with
  | EmptyString => EmptyString
  | String c rest => if p c then drop_while p rest else s
  end.

Definition newline : ascii := ascii_of_nat 10.

Definition lines (s : string) : list string := split_on newline s.

End Text.

Module DocumentAdapter.
Import Scenes Text.

(** Modelled from the spec: the document adapter ([DocumentAdapter] of the
    package [input_adapters]), whose module is not among the sources; only
    its tests are. Section 4.1: "split on section headings; the first
    heading becomes the video title; a synthetic title scene is always
    prepended and a synthetic outro scene always appended; sections
    containing a fenced code block are classified as command scenes (block
    lines become command lines), sections dominated by bullet lines are
    classified as list scenes, and everything else defaults to list/prose
    summary. A max_scenes bound truncates or merges sections once
    exceeded." *)
Record section := mk_section {
  heading : string;
  body : list string
}.

Definition hash : ascii := ascii_of_nat 35.

(** A heading line: ["# Title"], ["## Section"], ... *)
Definition is_heading (line : string) : bool :=
  String.prefix "#" (lstrip line).

Definition heading_text (line : string) : string :=
  strip (drop_while (Ascii.eqb hash) (lstrip line)).

(** The line that opens or closes a fenced code block. *)
Definition is_fence (line : string) : bool :=
  String.prefix "```" (lstrip line).

Definition is_bullet (line : string) : bool :=
  String.prefix "- " (lstrip line) || String.prefix "* " (lstrip line).

Definition bullet_text (line : string) : string :=
  strip (String.substring 2 (String.length (lstrip line) - 2) (lstrip line)).

Definition add_line (line : string) (s : section) : section :=
  mk_section (heading s) (body s ++ [line]).

(** "Split on section headings". A line inside a fenced block is never a
    heading. The text before the first heading is the first piece. *)
Fixpoint split_sections (in_fence : bool) (current : section)
    (ls : list string) : list section :=
  match ls with
  | [] => [current]
  | line :: rest =>
      if is_fence line then
        split_sections (negb in_fence) (add_line line current) rest
      else if negb in_fence && is_heading line then
        current :: split_sections false (mk_section (heading_text line) []) rest
      else
        split_sections in_fence (add_line line current) rest
  end.

Definition pieces (content : string) : list section :=
  split_sections false (mk_section "" []) (lines content).

(** A piece with nothing but blank lines yields no scene. *)
Definition has_content (s : section) : bool :=
  negb (forallb is_blank (body s)).

Definition content_sections (content : string) : list section :=
  filter has_content (pieces content).

(** "The first heading becomes the video title"; a document without a
    heading is titled by the name of its source. *)
Definition video_title (source_name content : string) : string :=
  match pieces content with
  | _ :: first :: _ => heading first
  | _ => source_name
  end.

Definition has_fence (s : section) : bool := existsb is_fence (body s).

(** The lines inside the fenced blocks of a section. *)
Fixpoint block_lines (in_fence : bool) (ls : list string) : list string :=
  match ls with
  | [] => []
  | line :: rest =>
      if is_fence line then block_lines (negb in_fence) rest
      else if in_fence then line :: block_lines true rest
      else block_lines false rest
  end.

Definition nonblank (ls : list string) : list string :=
  filter (fun l => negb (is_blank l)) ls.

(** "Dominated by bullet lines": most of the lines that are not blank. *)
Definition bullet_dominated (s : section) : bool :=
  Nat.ltb (List.length (nonblank (body s)))
          (2 * List.length (filter is_bullet (body s))).

(** The scene of one section. *)
Definition section_scene (s : section) : Scene :=
  if has_fence s then
    mk_scene Command
      [("header", Text (heading s)); ("commands", Lines (block_lines false (body s)))]
  else if bullet_dominated s then
    mk_scene List
      [("header", Text (heading s));
       ("items", Lines (map bullet_text (filter is_bullet (body s))))]
  else
    mk_scene List
      [("header", Text (heading s)); ("items", Lines (map strip (nonblank (body s))))].

Definition title_scene (t : string) : Scene :=
  mk_scene Title [("title", Text t)].

Definition outro_scene (t : string) : Scene :=
  mk_scene Outro [("main_text", Text t)].

(** The adapter object: [DocumentAdapter(max_scenes=..., target_duration=...)]. *)
Record config := mk_config {
  max_scenes : nat;
  target_duration : nat
}.

Section WithFit.

(** "A max_scenes bound truncates or merges sections once exceeded; a
    target_duration hint influences how aggressively sections are merged."
    Section 9 leaves the heuristic open, so it is a parameter:
    [fit duration room sections] brings the sections down to [room]. *)
Variable fit : nat -> nat -> list section -> list section.

(** The scenes of a video: the title scene, one scene per section that was
    kept, the outro scene. Title and outro take two of the [max_scenes]. *)
Definition build_scenes (cfg : config) (source_name content : string)
    : list Scene :=
  title_scene (video_title source_name content)
  :: map section_scene
       (fit (target_duration cfg) (max_scenes cfg - 2) (content_sections content))
  ++ [outro_scene (video_title source_name content)].

Definition build (cfg : config) (source_name content : string) : VideoSet :=
  mk_video_set source_name (video_title source_name content)
    [mk_video source_name (video_title source_name content)
       (build_scenes cfg source_name content)].

(** Modelled from the spec: [DocumentAdapter.adapt(source, options)], whose
    module is not among the sources. [read] is the file system, giving the
    text of the document at a path; a missing source is [SourceNotFound]
    (section 7). *)
Definition adapt (cfg : config) (read : string -> option string)
    (source : string) : VideoSet + AdaptationError :=
  match read source with
  | None => inr (SourceNotFound source)
  | Some content => inl (build cfg source content)
  end.

End WithFit.

(** What the spec fixes about the heuristic: it acts only "once exceeded",
    and what it returns fits. *)
Definition fits (fit : nat -> nat -> list section -> list section) : Prop :=
  (forall d room l, List.length (fit d room l) <= room) /\
  (forall d room l, List.length l <= room -> fit d room l = l).

(** Modelled from the spec: "a max_scenes bound truncates or merges
    sections once exceeded". Truncation keeps the first sections. *)
Definition truncate (d room : nat) (l : list section) : list section :=
  firstn room l.

End DocumentAdapter.

(* ===================================================================== *)
(** ** The audio scripts *)
(* ===================================================================== *)

Module Dict.

(** A [dict] with string keys, in insertion order. *)
Definition dict (V : Type) : Type := list (string * V).

(** [d.get(k)] *)
Fixpoint get {V} (k : string) (d : dict V) : option V :=
  match d with
  | [] => None
  | (k', v) :: rest => if String.eqb k k' then Some v else get k rest
  end.

(** [d.get(k, default)] *)
Definition get_or {V} (k : string) (d : dict V) (default : V) : V :=
  match get k d with
  | Some v => v
  | None => default
  end.

(** [d[k]] *)
Definition item (k : string) (d : dict string) : Py.outcome string :=
  match get k d with
  | Some v => Py.Return v
  | None => Py.Raise (Py.KeyError k)
  end.

Definition values {V} (d : dict V) : list V := map snd d.

Definition is_some {V} (o : option V) : bool :=
  match o with Some _ => true | None => false end.

End Dict.

Module GenerateAudio.
Import Dict.

(** [scripts/generate_audio.py], lines 31-47. *)
Definition VOICES : dict string :=
  [("mx_female_1", "es-MX-DaliaNeural");
   ("mx_male_1", "es-MX-JorgeNeural");
   ("co_female_1", "es-CO-SalomeNeural");
   ("co_male_1", "es-CO-GonzaloNeural");
   ("ar_female_1", "es-AR-ElenaNeural");
   ("ar_male_1", "es-AR-TomasNeural");
   ("us_female_1", "es-US-PalomaNeural");
   ("us_male_1", "es-US-AlonsoNeural")].

(** Lines 51-66. *)
Definition VERB_VOICE_MAPPING : dict string :=
  [("observar", "mx_female_1");
   ("contemplar", "co_male_1");
   ("avistar", "ar_female_1");
   ("divisar", "mx_male_1");
   ("percibir", "co_female_1");
   ("advertir", "ar_male_1");
   ("notar", "us_female_1");
   ("vislumbrar", "mx_female_1");
   ("atisbar", "co_male_1");
   ("otear", "ar_female_1");
   ("acechar", "mx_male_1");
   ("columbrar", "us_male_1");
   ("constatar", "co_female_1");
   ("entrever", "ar_male_1")].

(** Line 105: the voice chosen for a verb. *)
Definition voice_for (verb : string) : string :=
  get_or verb VERB_VOICE_MAPPING "us_female_1".

(** Line 70: [VOICES[voice]], the lookup [generate_audio] starts with. *)
Definition voice_name (voice : string) : Py.outcome string := item voice VOICES.

(** A synonym entry: its verb and its examples. *)
Record synonym := mk_synonym {
  verb : string;
  examples : list string
}.

(** A call [generate_audio(text, output_path, voice)] queued on [tasks]. *)
Record task := mk_task {
  task_text : string;
  task_voice : string
}.

(** Lines 103-129: the tasks queued for one synonym, the verb first, then
    its examples, all with the verb's voice. *)
Definition tasks_of (s : synonym) : list task :=
  mk_task (verb s) (voice_for (verb s))
  :: map (fun example => mk_task example (voice_for (verb s))) (examples s).

(** The list [tasks] that [generate_all_audio] hands to [asyncio.gather]. *)
Definition all_tasks (synonyms : list synonym) : list task :=
  flat_map tasks_of synonyms.

(** Line 144: [sum(len(s['examples']) for s in synonyms)]. *)
Definition example_count (synonyms : list synonym) : nat :=
  list_sum (map (fun s => List.length (examples s)) synonyms).

End GenerateAudio.

Module GenerateNarrativeAudio.
Import Dict.

(** [generate_narrative_audio.py], lines 27-36: the same table. *)
Definition VOICES : dict string := GenerateAudio.VOICES.

(** Lines 39-46. *)
Definition VERB_VOICES : dict string :=
  [("contemplar", "co_male_1");
   ("vislumbrar", "mx_female_1");
   ("atisbar", "co_male_1");
   ("otear", "ar_female_1");
   ("columbrar", "us_male_1");
   ("entrever", "ar_male_1")].

(** Line 84. *)
Definition voice_for (verb : string) : string :=
  get_or verb VERB_VOICES "us_female_1".

(** Lines 50 and 87: [VOICES[voice_id]]. *)
Definition voice_name (voice : string) : Py.outcome string := item voice VOICES.

End GenerateNarrativeAudio.

(* ===================================================================== *)
(** ** The molecular-dynamics runner *)
(* ===================================================================== *)

Module OpenmmRunner.

(** [range(i, stop, step)] for a positive [step], unrolled [fuel] times. *)
Fixpoint range_from (fuel i stop step : nat) : list nat :=
  match fuel with
  | 0 => []
  | S fuel' =>
      if Nat.ltb i stop then i :: range_from fuel' (i + step) stop step
      else []
  end.

(** [range(0, stop, step)]; [stop] rounds suffice for a positive step, and
    a zero step is a [ValueError]. *)
Definition range (stop step : nat) : Py.outcome (list nat) :=
  if Nat.eqb step 0
  then Py.Raise (Py.ValueError "range() arg 3 must not be zero")
  else Py.Return (range_from stop 0 stop step).

(** What the production loop touches: the step counter of the simulation,
    the steps at which [EnergyReporter] took a frame, and the counter and
    the log lines ([Step s of total]) of [ProgressReporter]. *)
Record run_state := mk_run {
  currentStep : nat;
  frames : list nat;
  report_interval : nat;
  reported_step : nat;
  log_lines : list (nat * nat)
}.

(** One round of the loop of [production_run], lines 160-162:
    [simulation.step(output_frequency)], then the two reporters. *)
Definition round (total_steps output_frequency : nat) (st : run_state)
    : run_state :=
  let now := currentStep st + output_frequency in
  let shown := reported_step st + report_interval st in
  mk_run now (frames st ++ [now]) (report_interval st) shown
    (log_lines st ++ [(shown, total_steps)]).

(** [production_run], lines 151-164. *)
Definition production_run (total_steps output_frequency : nat) (st : run_state)
    : Py.outcome run_state :=
  match range total_steps output_frequency with
  | Py.Raise e => Py.Raise e
  | Py.Return rounds =>
      Py.Return (fold_left (fun s _ => round total_steps output_frequency s)
                   rounds st)
  end.

(** The state in which [run_simulation] enters the production run: the
    reporters are new and report every [output_frequency] steps (lines
    191-192); [start] steps were taken by the equilibration. *)
Definition fresh_run (start output_frequency : nat) : run_state :=
  mk_run start [] output_frequency 0 [].

(** The number of rounds: [total_steps / output_frequency], rounded up. *)
Definition rounds_needed (total_steps output_frequency : nat) : nat :=
  (total_steps + output_frequency - 1) / output_frequency.

End OpenmmRunner.

(* ===================================================================== *)
(** ** Concrete instances *)
(* ===================================================================== *)

Module Posix.
Import Text BaseFixed.

(** [pathlib.PurePosixPath]: the root is ["//"] for exactly two leading
    slashes and ["/"] for one or for three and more; the other components
    are what lies between slashes, without the empty ones and without
    ["."]; [str] joins them with single slashes, and is ["."] for the empty
    path. *)
Definition slash : ascii := ascii_of_nat 47.

Definition root_of (s : string) : string :=
  if String.prefix "//" s && negb (String.prefix "///" s) then "//"
  else if String.prefix "/" s then "/"
  else "".

Definition is_component (part : string) : bool :=
  negb (String.eqb part "") && negb (String.eqb part ".").

Definition components (s : string) : list string :=
  filter is_component (split_on slash s).

Definition normalize (s : string) : string :=
  match root_of s ++ join "/" (components s) with
  | EmptyString => "."
  | shown => shown
  end.

(** Two slashes in a row somewhere in [s]. *)
Fixpoint double_slash (s : string) : bool :=
  match s with
  | EmptyString => false
  | String a rest =>
      match rest with
      | EmptyString => false
      | String b _ => (Ascii.eqb a slash && Ascii.eqb b slash) || double_slash rest
      end
  end.

Fixpoint has_char (c : ascii) (s : string) : bool :=
  match s with
  | EmptyString => false
  | String a rest => Ascii.eqb a c || has_char c rest
  end.

Definition starts_with_char (c : ascii) (s : string) : bool :=
  match s with
  | EmptyString => false
  | String a _ => Ascii.eqb a c
  end.

(** A path is kept as its normal form. *)
#[export] Instance posix_path : PathLib := {|
  Path := string;
  Path_of_str := normalize;
  str_of_Path := fun p => p
|}.

End Posix.

Module Instances.
Import Models.

(** The video sets of the scene model, every one of them true, as the
    instances of a class that defines neither [__bool__] nor [__len__]. *)
#[export] Instance scene_video_set : VideoSetClass := {|
  VideoSet := Scenes.VideoSet;
  vs_truth := fun _ => true
|}.

(** The document of [test_document_scene_type_detection]. *)
Definition test_document : string :=
"# Test Document

## Installation

Run these commands:

```bash
pip install package
python setup.py
```

## Features

- Fast performance
- Easy to use
- Well documented

## Configuration

The system supports various options.
Each option can be configured separately.
".

(** The document of [test_document_with_only_whitespace]:
    three blanks, two newlines, three blanks, two tabs, two blanks, a
    newline, two blanks. *)
Definition whitespace_document : string :=
  Text.join (String Text.newline "")
    ["   "; "";
     "   " ++ String (ascii_of_nat 9) (String (ascii_of_nat 9) "  ");
     "  "].

(** A file system that holds the two documents. *)
Definition test_files (path : string) : option string :=
  if String.eqb path "scenes.md" then Some test_document
  else if String.eqb path "blank.md" then Some whitespace_document
  else None.

(** A world with the main thread only, outside any event loop. *)
Definition sync_world : Asyncio.world :=
  Asyncio.mk_world (fun _ => None) 0 1 [].

(** A world whose main thread is inside a running loop, as when [parse] is
    called from a coroutine. *)
Definition async_world : Asyncio.world :=
  Asyncio.mk_world (fun t => if Nat.eqb t 0 then Some 0 else None) 1 1 [].

Definition demo_set : Scenes.VideoSet :=
  Scenes.mk_video_set "demo" "Demo"
    [Scenes.mk_video "demo" "Demo"
       [Scenes.mk_scene Scenes.Title [("title", Scenes.Text "Demo")];
        Scenes.mk_scene Scenes.Outro [("main_text", Scenes.Text "Demo")]]].

End Instances.

(* ===================================================================== *)
(** ** A document as it is laid out *)
(* ===================================================================== *)

Module DocumentStructure.
Import Scenes Text DocumentAdapter.












End DocumentStructure.


(* ===================================================================== *)
(** ** Reading a trace: loops left open, workers left running *)
(* ===================================================================== *)

Module Hygiene.
Import Models Asyncio.

Section WithVideoSet.
Context {VS : VideoSetClass}.

Definition closes (l : loop_id) (ev : event) : bool :=
  match ev with
  | LoopClosed l' => Nat.eqb l' l
  | _ => false
  end.

Definition joins (parent child : thread_id) (ev : event) : bool :=
  match ev with
  | Joined p c => Nat.eqb p parent && Nat.eqb c child
  | _ => false
  end.

(** Every loop made in the trace is closed later in the trace. *)
Fixpoint all_loops_closed (evs : list event) : bool :=
  match evs with
  | [] => true
  | LoopCreated _ l :: rest => existsb (closes l) rest && all_loops_closed rest
  | _ :: rest => all_loops_closed rest
  end.

(** Every worker started in the trace is joined later in the trace. *)
Fixpoint all_workers_joined (evs : list event) : bool :=
  match evs with
  | [] => true
  | WorkerSpawned p c :: rest =>
      existsb (joins p c) rest && all_workers_joined rest
  | _ :: rest => all_workers_joined rest
  end.

(** The workers started in the trace. *)
Fixpoint workers_spawned (evs : list event) : list thread_id :=
  match evs with
  | [] => []
  | WorkerSpawned _ c :: rest => c :: workers_spawned rest
  | _ :: rest => workers_spawned rest
  end.

(** The current loop of thread [t] after the trace, when it was [current]
    before: each [asyncio.set_event_loop] on [t] replaces it. *)
Fixpoint current_loop_from (current : option loop_id) (t : thread_id)
    (evs : list event) : option loop_id :=
  match evs with
  | [] => current
  | LoopSet t' l :: rest =>
      current_loop_from (if Nat.eqb t' t then Some l else current) t rest
  | LoopUnset t' :: rest =>
      current_loop_from (if Nat.eqb t' t then None else current) t rest
  | _ :: rest => current_loop_from current t rest
  end.

(** The loop that the last [asyncio.set_event_loop] of the trace left as
    the current loop of thread [t], if the trace left one. *)
Definition current_loop (t : thread_id) (evs : list event) : option loop_id :=
  current_loop_from None t evs.

End WithVideoSet.
End Hygiene.

(* ===================================================================== *)
(** ** The metadata written by the audio scripts *)
(* ===================================================================== *)

From Stdlib Require Import DecimalString DecimalNat.

Module PyMore.

Definition IndexError (msg : string) : Py.exn :=
  Py.mk_exn "IndexError" ["LookupError"; "Exception"; "BaseException"] msg.

(** The class of the exception a call raised, if it raised. *)
Definition error_class {A} (o : Py.outcome A) : option string :=
  match o with
  | Py.Return _ => None
  | Py.Raise e => Some (Py.exn_class e)
  end.

(** [str(i)] for an [int] that is not negative. *)
Definition str_of_nat (i : nat) : string :=
  NilEmpty.string_of_uint (Nat.to_uint i).

(** [enumerate(xs, start)] *)
Fixpoint enumerate {A} (start : nat) (xs : list A) : list (nat * A) :=
  match xs with
  | [] => []
  | x :: rest => (start, x) :: enumerate (S start) rest
  end.

(** [d[k] = v] on a dict in insertion order: the value of a key that is
    there is replaced in place, a new key goes to the end. *)
Fixpoint setitem {V} (k : string) (v : V) (d : Dict.dict V) : Dict.dict V :=
  match d with
  | [] => [(k, v)]
  | (k', v') :: rest =>
      if String.eqb k k' then (k, v) :: rest
      else (k', v') :: setitem k v rest
  end.

(** [c.upper()] for a character of ASCII: a small letter becomes the
    capital one, every other character of ASCII is left as it is. *)
Definition upper_char (c : ascii) : ascii :=
  let n := nat_of_ascii c in
  if Nat.leb 97 n && Nat.leb n 122 then ascii_of_nat (n - 32) else c.

(** [s.upper()] for a text of ASCII. *)
Fixpoint upper (s : string) : string :=
  match s with
  | EmptyString => EmptyString
  | String c rest => String (upper_char c) (upper rest)
  end.

(** [s.isascii()]; a [str] is held as its UTF-8 bytes. *)
Definition is_ascii (s : string) : bool :=
  Text.all_chars (fun c => Nat.ltb (nat_of_ascii c) 128) s.

(** [str.upper]. Outside ASCII it follows the tables of Unicode, which are
    not spelled out here: what is used of it is what it does to a text of
    ASCII. *)
Class StrUpper := {
  str_upper : string -> string;
  str_upper_ascii : forall s, is_ascii s = true -> str_upper s = upper s
}.

(** [str.upper] cut down to ASCII, which meets the class. *)
Definition ascii_upper : StrUpper :=
  {| str_upper := upper; str_upper_ascii := fun _ _ => eq_refl |}.

End PyMore.

Module AudioMetadata.
Import Dict PyMore GenerateAudio.

Definition underscore : ascii := ascii_of_nat 95.

(** An entry of [audio_metadata["voices"]], lines 93-97. *)
Record voice_meta := mk_voice_meta {
  name : string;
  region : string;
  gender : string
}.

(** Lines 91-97 of [generate_all_audio], for one item of [VOICES]:
    [voice_id.split('_')[0].upper()] and [voice_id.split('_')[1]]. *)
Definition voice_entry {U : StrUpper} (voice_id voice_name : string)
    : Py.outcome voice_meta :=
  match Text.split_on underscore voice_id with
  | first :: second :: _ =>
      Py.Return (mk_voice_meta voice_name (str_upper first) second)
  | _ => Py.Raise (IndexError "list index out of range")
  end.

(** Lines 90-97: the loop over [VOICES.items()], whose keys differ. *)
Fixpoint voices_section {U : StrUpper} (voices : dict string)
    : Py.outcome (dict voice_meta) :=
  match voices with
  | [] => Py.Return []
  | (voice_id, voice_name) :: rest =>
      match voice_entry voice_id voice_name with
      | Py.Raise e => Py.Raise e
      | Py.Return entry =>
          match voices_section rest with
          | Py.Raise e => Py.Raise e
          | Py.Return section => Py.Return ((voice_id, entry) :: section)
          end
      end
  end.

(** An entry of [audio_metadata["verbs"]] or of a list in
    [audio_metadata["examples"]]: the keys [file], [voice], [text]. *)
Record file_entry := mk_file_entry {
  file : string;
  voice : string;
  text : string
}.

(** Lines 112-116. *)
Definition verb_entry (v : string) : file_entry :=
  mk_file_entry ("assets/audio/verbs/" ++ v ++ ".mp3") (voice_for v) v.

(** Line 126: [f"assets/audio/examples/{verb}_example_{i}.mp3"]. *)
Definition example_file (v : string) (i : nat) : string :=
  "assets/audio/examples/" ++ v ++ "_example_" ++ str_of_nat i ++ ".mp3".

(** Lines 119-129: the list built for one synonym. *)
Definition example_entries (s : synonym) : list file_entry :=
  map (fun numbered =>
         mk_file_entry (example_file (verb s) (fst numbered))
           (voice_for (verb s)) (snd numbered))
      (enumerate 1 (examples s)).

(** [audio_metadata["verbs"]] after the loop of lines 103-129. *)
Definition verbs_section (synonyms : list synonym) : dict file_entry :=
  fold_left (fun d s => setitem (verb s) (verb_entry (verb s)) d) synonyms [].

(** [audio_metadata["examples"]] after the loop. *)
Definition examples_section (synonyms : list synonym)
    : dict (list file_entry) :=
  fold_left (fun d s => setitem (verb s) (example_entries s) d) synonyms [].

(** The last synonym of the list with verb [v]. *)
Definition last_with (v : string) (synonyms : list synonym) : option synonym :=
  find (fun s => String.eqb v (verb s)) (rev synonyms).

End AudioMetadata.

Module NarrativeMetadata.
Import Dict PyMore GenerateNarrativeAudio.

(** [synonym["narrativeExperience"]]: a title and the texts of the parts. *)
Record narrative := mk_narrative {
  title : string;
  parts : list string
}.

(** An entry of [synonyms.json] as [generate_narrative_audio] reads it;
    the key [narrativeExperience] may be missing. *)
Record synonym := mk_synonym {
  verb : string;
  narrativeExperience : option narrative
}.

(** An item of [audio_metadata["narratives"][verb]["parts"]], lines
    100-106; [duration] is a number of seconds, not known yet. *)
Record part_entry := mk_part_entry {
  partNumber : nat;
  file : string;
  voice : string;
  text : string;
  duration : option nat
}.

(** An entry of [audio_metadata["narratives"]], lines 89-93. *)
Record narrative_entry := mk_narrative_entry {
  entry_title : string;
  entry_voice : string;
  entry_parts : list part_entry
}.

(** Line 102: [f"assets/audio/narratives/{verb}_part_{i}.mp3"]. *)
Definition part_file (v : string) (i : nat) : string :=
  "assets/audio/narratives/" ++ v ++ "_part_" ++ str_of_nat i ++ ".mp3".

(** Lines 89-106: the entry written for a verb with a narrative. *)
Definition entry_of (v : string) (n : narrative) : narrative_entry :=
  mk_narrative_entry (title n) (voice_for v)
    (map (fun numbered =>
            mk_part_entry (fst numbered) (part_file v (fst numbered))
              (voice_for v) (snd numbered) None)
         (enumerate 1 (parts n))).

(** A call [generate_audio(part_text, output_file, voice_id)] queued on
    [tasks]; the file is named inside [NARRATIVES_DIR]. *)
Record task := mk_task {
  task_text : string;
  task_file : string;
  task_voice : string
}.

(** Lines 97-98: the calls queued for the parts of one narrative. *)
Definition part_tasks (v : string) (n : narrative) : list task :=
  map (fun numbered =>
         mk_task (snd numbered)
           (v ++ "_part_" ++ str_of_nat (fst numbered) ++ ".mp3")
           (voice_for v))
      (enumerate 1 (parts n)).

(** What the loop of lines 76-108 works on: the narratives section of the
    metadata, the queued calls of [generate_audio] and the counter. *)
Record run := mk_run {
  narratives : dict narrative_entry;
  tasks : list task;
  narrative_count : nat
}.

(** One round of the loop: a synonym without narrative is skipped. *)
Definition round (r : run) (s : synonym) : run :=
  match narrativeExperience s with
  | None => r
  | Some n =>
      mk_run (setitem (verb s) (entry_of (verb s) n) (narratives r))
        (tasks r ++ part_tasks (verb s) n)
        (S (narrative_count r))
  end.

(** Lines 67-108. [existing] is [audio_metadata.get("narratives")] as
    loaded from the file: a missing section starts empty. *)
Definition generate_narrative_audio
    (existing : option (dict narrative_entry)) (synonyms : list synonym) : run :=
  fold_left round synonyms
    (mk_run (match existing with Some d => d | None => [] end) [] 0).

Definition has_narrative (s : synonym) : bool :=
  is_some (narrativeExperience s).

(** The narrative of the last synonym with verb [v] that has one. *)
Definition last_narrative (v : string) (synonyms : list synonym)
    : option narrative :=
  match find (fun s => String.eqb v (verb s) && has_narrative s) (rev synonyms) with
  | Some s => narrativeExperience s
  | None => None
  end.

(** [sum(len(parts))] over the synonyms with a narrative. *)
Definition part_count (synonyms : list synonym) : nat :=
  list_sum (map (fun s => match narrativeExperience s with
                          | Some n => List.length (parts n)
                          | None => 0
                          end) synonyms).

End NarrativeMetadata.

Module OpenmmWorkflow.
Import OpenmmRunner.

(** [simulation.step(steps)] with the [DCDReporter] of line 188 among the
    reporters: before it takes a step, the simulation asks the reporter
    when its next report is due, and the reporter divides by its interval,
    which is [output_frequency]. Nothing is asked when no step is to be
    taken. *)
Definition step (output_frequency steps : nat) (st : run_state)
    : Py.outcome run_state :=
  if Nat.eqb steps 0 then Py.Return st
  else if Nat.eqb output_frequency 0
  then Py.Raise (Py.ZeroDivisionError "integer division or modulo by zero")
  else Py.Return
         (mk_run (currentStep st + steps) (frames st) (report_interval st)
            (reported_step st) (log_lines st)).

(** [equilibration], lines 139-149, as far as the step counter goes:
    [simulation.step(steps)]. *)
Definition equilibration (output_frequency steps : nat) (st : run_state)
    : Py.outcome run_state :=
  step output_frequency steps st.

(** [run_simulation], lines 188-202: new reporters on a new simulation,
    the equilibration for a tenth of [total_steps], then the production
    run (the minimisation takes no step). *)
Definition run_simulation (total_steps output_frequency : nat)
    : Py.outcome run_state :=
  match equilibration output_frequency (total_steps / 10)
          (fresh_run 0 output_frequency) with
  | Py.Raise e => Py.Raise e
  | Py.Return st => production_run total_steps output_frequency st
  end.

(** Line 217, [total_frames]. *)
Definition total_frames (st : run_state) : nat := List.length (frames st).

End OpenmmWorkflow.
(* ===================================================================== *)
(** * Properties *)
(* ===================================================================== *)

Section AsyncioFacts.
Import Py Asyncio Models.
Context {VS : VideoSetClass}.

Lemma events_since_app (w : world) (evs : list event) (r : thread_id -> option loop_id) (nl nt : nat) :
  events_since w (mk_world r nl nt (trace w ++ evs)) = evs.
Proof.
  unfold events_since. simpl.
  induction (trace w) as [|ev tr IH]; simpl; auto.
Qed.

(** Outside a running loop [asyncio.run] makes a loop, runs the coroutine on
    it, unsets and closes it; the coroutine's outcome is the call's. *)
Lemma asyncio_run_fresh (t : thread_id) (coro : coroutine) (w : world) :
  running w t = None ->
  asyncio_run t coro w =
  (coro, after_own_loop true t coro w).
Proof.
  intros Hnone. unfold asyncio_run. rewrite Hnone.
  unfold bind, new_event_loop, set_event_loop, unset_event_loop, emit,
    try_finally, run_until_complete, loop_close. simpl. rewrite Hnone.
  unfold after_own_loop, own_loop_events, log. simpl.
  repeat rewrite <- app_assoc. reflexivity.
Qed.

Lemma asyncio_run_refused (t : thread_id) (coro : coroutine) (w : world)
    (active : loop_id) :
  running w t = Some active ->
  asyncio_run t coro w =
  (Raise (RuntimeError "asyncio.run() cannot be called from a running event loop"),
   log (RunRefused t active) w).
Proof. intros Hsome. unfold asyncio_run. rewrite Hsome. reflexivity. Qed.

End AsyncioFacts.

Section WrapperFacts.
Import Py Asyncio Models.
Context {VS : VideoSetClass}.

Lemma worker_asyncio_run (t : thread_id) (coro : coroutine) (w : world) :
  submit_and_wait t (fun worker => asyncio_run worker coro) w
  = (coro, after_worker true t coro w).
Proof.
  unfold submit_and_wait. rewrite asyncio_run_fresh.
  - unfold after_worker, after_own_loop, own_loop_events, log. simpl.
    repeat rewrite <- app_assoc. reflexivity.
  - simpl. now rewrite Nat.eqb_refl.
Qed.

Lemma run_async_fresh (t : thread_id) (adapt : outcome adapt_value) (w : world) :
  running w t = None ->
  BaseFixed._run_async_in_new_loop t adapt w =
  (Base.settle adapt, after_own_loop false t adapt w).
Proof.
  intros Hnone. unfold BaseFixed._run_async_in_new_loop.
  unfold bind, new_event_loop, set_event_loop, emit, try_finally,
    run_until_complete, loop_close, lift. simpl. rewrite Hnone.
  unfold after_own_loop, own_loop_events.
  destruct adapt as [result|e]; unfold log; simpl;
    repeat rewrite <- app_assoc; reflexivity.
Qed.

Lemma run_async_refused (t : thread_id) (adapt : outcome adapt_value) (w : world)
    (active : loop_id) :
  running w t = Some active ->
  BaseFixed._run_async_in_new_loop t adapt w =
  (Raise (RuntimeError "Cannot run the event loop while another loop is running"),
   after_refused_loop t active w).
Proof.
  intros Hsome. unfold BaseFixed._run_async_in_new_loop.
  unfold bind, new_event_loop, set_event_loop, emit, try_finally,
    run_until_complete, loop_close, lift. simpl. rewrite Hsome.
  unfold log; simpl. repeat rewrite <- app_assoc; reflexivity.
Qed.

Lemma worker_run_async (t : thread_id) (adapt : outcome adapt_value) (w : world) :
  submit_and_wait t (fun worker => BaseFixed._run_async_in_new_loop worker adapt) w
  = (Base.settle adapt, after_worker false t adapt w).
Proof.
  unfold submit_and_wait. rewrite run_async_fresh.
  - unfold after_worker, after_own_loop, own_loop_events, log. simpl.
    repeat rewrite <- app_assoc. reflexivity.
  - simpl. now rewrite Nat.eqb_refl.
Qed.

(** [handle_result] raises [ValueError] or [TypeError] only, so an
    [except RuntimeError] clause lets its exceptions pass. *)
Lemma handle_result_not_runtime (result : adapt_value) (e : exn) :
  Base.handle_result result = Raise e -> isinstance e "RuntimeError" = false.
Proof.
  destruct result as [r|v|ty]; simpl.
  - destruct (success r && truth_optional (video_set r)); intros H;
      inversion H; reflexivity.
  - discriminate.
  - intros H; inversion H; reflexivity.
Qed.

(** [parse] of [base.py] outside a running loop. *)
Lemma base_parse_sync (t : thread_id) (adapt : outcome adapt_value) (w : world) :
  running w t = None ->
  Base.parse t adapt w = (Base.settle adapt, after_own_loop true t adapt w).
Proof.
  intros Hnone. unfold Base.parse, bind, try_except, get_running_loop, lift.
  rewrite Hnone. simpl. rewrite (asyncio_run_fresh t adapt w Hnone).
  destruct adapt as [result|e]; reflexivity.
Qed.

Lemma running_after_worker (unset : bool) (t : thread_id) (coro : coroutine)
    (w : world) :
  t < next_thread w -> running (after_worker unset t coro w) t = running w t.
Proof.
  intros Hlt. simpl. destruct (Nat.eqb_spec t (next_thread w)); [lia | reflexivity].
Qed.

(** [parse] of [base.py] under a running loop: the worker's outcome is the
    call's, except that a [RuntimeError] of [adapt] reaches the [except]
    clause, whose [asyncio.run] is refused. *)
Lemma base_parse_async (t : thread_id) (adapt : outcome adapt_value) (w : world)
    (active : loop_id) :
  running w t = Some active -> t < next_thread w ->
  Base.parse t adapt w =
  match adapt with
  | Return result => (Base.handle_result result, after_worker true t adapt w)
  | Raise e =>
      if isinstance e "RuntimeError"
      then (Raise (RuntimeError
                     "asyncio.run() cannot be called from a running event loop"),
            log (RunRefused t active) (after_worker true t adapt w))
      else (Raise e, after_worker true t adapt w)
  end.
Proof.
  intros Hsome Hlt. unfold Base.parse, bind, try_except, get_running_loop, lift.
  rewrite Hsome. rewrite worker_asyncio_run.
  destruct adapt as [result|e]; [reflexivity|].
  destruct (isinstance e "RuntimeError"); [|reflexivity].
  rewrite (asyncio_run_refused t _ (after_worker true t (Raise e) w) active);
    [reflexivity|].
  rewrite running_after_worker; assumption.
Qed.

(** [parse] of [base_fixed.py] outside a running loop. *)
Lemma fixed_parse_sync (t : thread_id) (adapt : outcome adapt_value) (w : world) :
  running w t = None ->
  BaseFixed.parse t adapt w = (Base.settle adapt, after_own_loop false t adapt w).
Proof.
  intros Hnone. unfold BaseFixed.parse, bind, try_except, get_running_loop.
  rewrite Hnone. simpl. apply run_async_fresh. assumption.
Qed.

(** [parse] of [base_fixed.py] under a running loop. *)
Lemma fixed_parse_async (t : thread_id) (adapt : outcome adapt_value) (w : world)
    (active : loop_id) :
  running w t = Some active -> t < next_thread w ->
  BaseFixed.parse t adapt w =
  match adapt with
  | Return result => (Base.handle_result result, after_worker false t adapt w)
  | Raise e =>
      if isinstance e "RuntimeError"
      then (Raise (RuntimeError
                     "Cannot run the event loop while another loop is running"),
            after_refused_loop t active (after_worker false t adapt w))
      else (Raise e, after_worker false t adapt w)
  end.
Proof.
  intros Hsome Hlt. unfold BaseFixed.parse, bind, try_except, get_running_loop.
  rewrite Hsome. rewrite worker_run_async.
  destruct adapt as [result|e]; simpl Base.settle.
  - destruct (Base.handle_result result) as [v|e] eqn:Hres; [reflexivity|].
    rewrite (handle_result_not_runtime result e Hres). reflexivity.
  - cbv beta iota. destruct (isinstance e "RuntimeError"); [|reflexivity].
    apply run_async_refused. rewrite running_after_worker; assumption.
Qed.

End WrapperFacts.

Section Dispatch.
Import Py Asyncio Models.
Context {VS : VideoSetClass}.

Lemma events_after_own_loop (unset : bool) (t : thread_id) (coro : coroutine)
    (w : world) :
  events_since w (after_own_loop unset t coro w) =
  own_loop_events unset t (next_loop w) coro.
Proof. apply events_since_app. Qed.

Lemma events_after_worker (unset : bool) (t : thread_id) (coro : coroutine)
    (w : world) :
  events_since w (after_worker unset t coro w) =
  (WorkerSpawned t (next_thread w)
   :: own_loop_events unset (next_thread w) (next_loop w) coro
   ++ [Joined t (next_thread w)])%list.
Proof. apply events_since_app. Qed.

Lemma events_after_worker_refused (unset : bool) (t : thread_id)
    (coro : coroutine) (active : loop_id) (w : world) :
  events_since w (log (RunRefused t active) (after_worker unset t coro w)) =
  (events_since w (after_worker unset t coro w) ++ [RunRefused t active])%list.
Proof.
  rewrite events_after_worker. unfold log, after_worker. simpl.
  rewrite <- app_assoc. apply events_since_app.
Qed.

Lemma events_after_worker_refused_loop (unset : bool) (t : thread_id)
    (coro : coroutine) (active : loop_id) (w : world) :
  events_since w (after_refused_loop t active (after_worker unset t coro w)) =
  (events_since w (after_worker unset t coro w)
   ++ [LoopCreated t (S (next_loop w)); LoopSet t (S (next_loop w));
       RunRefused t active; LoopClosed (S (next_loop w))])%list.
Proof.
  rewrite events_after_worker. unfold after_refused_loop, after_worker. simpl.
  rewrite <- app_assoc. apply events_since_app.
Qed.



End Dispatch.

Section ParseOutcome.
Import Py Asyncio Models.
Context {VS : VideoSetClass}.

Lemma wf_thread (w : world) (t : thread_id) (active : loop_id) :
  wf_world w -> running w t = Some active ->
  t < next_thread w /\ active < next_loop w.
Proof. intros Hwf Hrun. exact (Hwf t active Hrun). Qed.

(** Whatever the thread's state, a value that [adapt] returns goes through
    [handle_result], in both wrappers. *)
Lemma parse_after_return (t : thread_id) (w : world) (result : adapt_value) :
  wf_world w ->
  fst (Base.parse t (Return result) w) = Base.handle_result result /\
  fst (BaseFixed.parse t (Return result) w) = Base.handle_result result.
Proof.
  intros Hwf. destruct (running w t) as [active|] eqn:Hrun.
  - destruct (wf_thread w t active Hwf Hrun) as [Ht _].
    rewrite (base_parse_async t _ w active Hrun Ht).
    rewrite (fixed_parse_async t _ w active Hrun Ht). split; reflexivity.
  - rewrite (base_parse_sync t _ w Hrun), (fixed_parse_sync t _ w Hrun).
    split; reflexivity.
Qed.

(** An exception of [adapt] never turns into a value. *)
Lemma parse_after_raise (t : thread_id) (w : world) (e : exn) :
  wf_world w ->
  raises (fst (Base.parse t (Raise e) w)) = true /\
  raises (fst (BaseFixed.parse (VS:=VS) t (Raise e) w)) = true.
Proof.
  intros Hwf. destruct (running w t) as [active|] eqn:Hrun.
  - destruct (wf_thread w t active Hwf Hrun) as [Ht _].
    rewrite (base_parse_async t _ w active Hrun Ht).
    rewrite (fixed_parse_async t _ w active Hrun Ht).
    destruct (isinstance e "RuntimeError"); split; reflexivity.
  - rewrite (base_parse_sync t _ w Hrun), (fixed_parse_sync t _ w Hrun).
    split; reflexivity.
Qed.

(** [handle_result] for video sets that are true. *)
Lemma handle_result_cases (result : adapt_value) :
  (forall v, vs_truth v = true) ->
  match result with
  | IsInputAdapterResult r =>
      match video_set r with
      | Some v =>
          if success r then Base.handle_result result = Return (Some v)
          else Base.handle_result result
               = Raise (ValueError ("Adapter failed: " ++ str_optional (error r)))
      | None =>
          Base.handle_result result
          = Raise (ValueError ("Adapter failed: " ++ str_optional (error r)))
      end
  | IsVideoSet v => Base.handle_result result = Return (Some v)
  | IsOther ty =>
      Base.handle_result result = Raise (TypeError ("Unexpected result type: " ++ ty))
  end.
Proof.
  intros Htrue. destruct result as [r|v|ty]; simpl; auto.
  destruct (video_set r) as [v|] eqn:Hvs; simpl.
  - rewrite Htrue. destruct (success r); reflexivity.
  - rewrite andb_false_r. reflexivity.
Qed.

End ParseOutcome.

(* ===================================================================== *)
(** ** The synchronous wrappers *)
(* ===================================================================== *)

Section Wrappers.
Import Py Asyncio Models.
Context {VS : VideoSetClass}.


(** C9. For every call of [parse], in both modules, when instances of
    [VideoSet] are true: a result with [success] and a video set gives
    exactly that video set; a result without success or without a video
    set raises [ValueError] with the result's error in its message; a
    [VideoSet] returned directly is passed on unchanged; a value of any
    other type raises [TypeError]. [parse] never returns [None], and it
    returns a video set exactly when [adapt] produced that one. *)
Theorem parse_returns_the_video_set_or_raises
    (parse : thread_id -> outcome adapt_value -> M (option VideoSet))
    (t : thread_id) (w : world) :
  (forall v, vs_truth v = true) ->
  wf_world w ->
  parse = Base.parse \/ parse = BaseFixed.parse ->
  (forall r v, success r = true -> video_set r = Some v ->
     fst (parse t (Return (IsInputAdapterResult r)) w) = Return (Some v))
  /\
  (forall r, success r = false \/ video_set r = None ->
     fst (parse t (Return (IsInputAdapterResult r)) w)
     = Raise (ValueError ("Adapter failed: " ++ str_optional (error r))))
  /\
  (forall v, fst (parse t (Return (IsVideoSet v)) w) = Return (Some v))
  /\
  (forall ty,
     fst (parse t (Return (IsOther ty)) w)
     = Raise (TypeError ("Unexpected result type: " ++ ty)))
  /\
  (forall adapt, fst (parse t adapt w) <> Return None)
  /\
  (forall adapt v,
     fst (parse t adapt w) = Return (Some v) <-> Base.produced adapt v)
  /\
  (forall adapt,
     raises (fst (parse t adapt w)) = true <-> ~ exists v, Base.produced adapt v).
Proof.
  intros Htrue Hwf Hparse.
  assert (Hret : forall result,
             fst (parse t (Return result) w) = Base.handle_result result).
  { intros result. destruct (parse_after_return t w result Hwf) as [Hb Hf].
    destruct Hparse as [-> | ->]; assumption. }
  assert (Hraise : forall e, raises (fst (parse t (Raise e) w)) = true).
  { intros e. destruct (parse_after_raise t w e Hwf) as [Hb Hf].
    destruct Hparse as [-> | ->]; assumption. }
  assert (Hcases : forall result, _) by exact (fun r => handle_result_cases r Htrue).
  assert (Hiff : forall adapt v,
             fst (parse t adapt w) = Return (Some v) <-> Base.produced adapt v).
  { intros adapt v. unfold Base.produced. destruct adapt as [result|e].
    - rewrite Hret. specialize (Hcases result).
      destruct result as [r|v'|ty].
      + destruct (video_set r) as [v'|] eqn:Hvs;
          [destruct (success r) eqn:Hs|]; rewrite Hcases; split.
        * intros H; inversion H; subst. right. exists r. auto.
        * intros [H | (r' & H & _ & Hv)]; inversion H; subst. congruence.
        * discriminate.
        * intros [H | (r' & H & Hs' & _)]; inversion H; subst. congruence.
        * discriminate.
        * intros [H | (r' & H & _ & Hv)]; inversion H; subst. congruence.
      + rewrite Hcases. split.
        * intros H; inversion H; subst. left. reflexivity.
        * intros [H | (r' & H & _)]; inversion H; subst. reflexivity.
      + rewrite Hcases. split; [discriminate|].
        intros [H | (r' & H & _)]; inversion H.
    - specialize (Hraise e). split.
      + intros H. rewrite H in Hraise. discriminate.
      + intros [H | (r' & H & _)]; inversion H. }
  assert (Hnone : forall adapt, fst (parse t adapt w) <> Return None).
  { intros [result|e].
    - rewrite Hret. specialize (Hcases result). destruct result as [r|v|ty].
      + destruct (video_set r); [destruct (success r)|]; rewrite Hcases; discriminate.
      + rewrite Hcases; discriminate.
      + rewrite Hcases; discriminate.
    - intros H. specialize (Hraise e). rewrite H in Hraise. discriminate. }
  repeat split.
  - intros r v Hs Hv. rewrite Hret. specialize (Hcases (IsInputAdapterResult r)).
    cbv beta iota in Hcases. rewrite Hv, Hs in Hcases. exact Hcases.
  - intros r Hfail. rewrite Hret. specialize (Hcases (IsInputAdapterResult r)).
    cbv beta iota in Hcases. destruct (video_set r) as [v|]; [|exact Hcases].
    destruct Hfail as [Hs | Hv]; [|discriminate]. rewrite Hs in Hcases. exact Hcases.
  - intros v. rewrite Hret. exact (Hcases (IsVideoSet v)).
  - intros ty. rewrite Hret. exact (Hcases (IsOther ty)).
  - exact Hnone.
  - apply Hiff.
  - apply Hiff.
  - intros Hr [v Hv]. apply Hiff in Hv. rewrite Hv in Hr. discriminate.
  - intros Hno. destruct (fst (parse t adapt w)) as [[v|]|e] eqn:Hout.
    + exfalso. apply Hno. exists v. apply Hiff. exact Hout.
    + exfalso. exact (Hnone adapt Hout).
    + reflexivity.
Qed.

End Wrappers.

Section WrapperWitnesses.
Import Py Asyncio Models Instances.

Lemma sync_world_wf : wf_world sync_world.
Proof. intros t l H. discriminate H. Qed.

Lemma async_world_wf : wf_world async_world.
Proof.
  intros t l H. unfold async_world in H. simpl in H.
  destruct (Nat.eqb_spec t 0) as [-> | _]; [|discriminate].
  inversion H; subst. simpl. split; lia.
Qed.


Lemma parse_returns_the_video_set_or_raises_witness :
  wf_world async_world /\
  fst (BaseFixed.parse (VS:=scene_video_set) 0
         (Return (@IsVideoSet scene_video_set demo_set)) async_world)
  = Return (Some demo_set).
Proof.
  split; [exact async_world_wf|].
  destruct (parse_returns_the_video_set_or_raises (VS:=scene_video_set)
              BaseFixed.parse 0 async_world (fun _ => eq_refl) async_world_wf
              (or_intror eq_refl)) as (_ & _ & Hdirect & _).
  exact (Hdirect demo_set).
Defined.

End WrapperWitnesses.

(* ===================================================================== *)
(** ** [BaseAdapter.adapt] and [_validate_source] *)
(* ===================================================================== *)

Section Adapt.
Import Py Models BaseFixed.
Context {VS : VideoSetClass} {PL : PathLib}.

Lemma adapt_handler_caught (test_mode : bool) (current : source) (e : exn) :
  isinstance e "Exception" = true ->
  adapt_handler test_mode current e =
  if test_mode then Raise e
  else Return (IsInputAdapterResult
                 (mk_result false None (Some (exn_str e))
                    [("source", str_of_source current)])).
Proof. intros He. unfold adapt_handler. rewrite He. reflexivity. Qed.

Lemma adapt_handler_raises (current : source) (e e' : exn) :
  adapt_handler false current e = Raise e' ->
  isinstance e' "Exception" = false.
Proof.
  unfold adapt_handler. destruct (isinstance e "Exception") eqn:He.
  - discriminate.
  - intros H; inversion H; subst. exact He.
Qed.

Lemma check_exists_raises (path_exists : Path -> outcome bool) (p : Path) :
  raised_class (check_exists path_exists p) = Some "FileNotFoundError" <->
  (path_exists p = Return false /\
   startswith ["http://"; "https://"] (str_of_Path p) = false) \/
  (exists e, path_exists p = Raise e /\ exn_class e = "FileNotFoundError").
Proof.
  unfold check_exists.
  destruct (path_exists p) as [[|]|e]; cbn [negb andb].
  - cbn [raised_class]. split; [discriminate|].
    intros [[H _] | (e & H & _)]; discriminate.
  - destruct (startswith ["http://"; "https://"] (str_of_Path p));
      cbn [negb raised_class exn_class FileNotFoundError]; split.
    + discriminate.
    + intros [[_ H] | (e & H & _)]; discriminate.
    + intros _. left. split; reflexivity.
    + reflexivity.
  - cbn [raised_class]. split.
    + intros H. right. exists e. split; [reflexivity|]. congruence.
    + intros [[H _] | (e' & H & Hc)]; [discriminate|].
      inversion H; subst. rewrite Hc. reflexivity.
Qed.

(** C10, as the code has it. Every exception that is an instance of
    [Exception] and is raised by the validation of the source or by
    [_perform_adaptation] comes back, when [test_mode] is false, as an
    [InputAdapterResult] with [success] false and [str(e)] as its error,
    and propagates unchanged when [test_mode] is true. With [test_mode]
    false, [adapt] raises nothing that is an instance of [Exception]; an
    exception that is no instance of [Exception] propagates in both modes.
    [_validate_source] raises [FileNotFoundError] exactly when
    [Path.exists] answers that the path of the source is not there and
    its string form starts neither with [http://] nor with [https://]
    (or when [Path.exists] itself raised one); an exception that
    [Path.exists] raises is the one that [_validate_source] raises. *)
Theorem adapt_turns_exceptions_into_results
    (path_exists : Path -> outcome bool) (perform : Path -> outcome VideoSet)
    (src : source) :
  (forall e,
     _validate_source path_exists src = Raise e \/
     (exists p, _validate_source path_exists src = Return p /\
                perform p = Raise e) ->
     isinstance e "Exception" = true ->
     (exists r,
        adapt false path_exists perform src = Return (IsInputAdapterResult r) /\
        success r = false /\ video_set r = None /\
        error r = Some (exn_str e)) /\
     adapt true path_exists perform src = Raise e)
  /\
  (forall e,
     adapt false path_exists perform src = Raise e ->
     isinstance e "Exception" = false)
  /\
  (forall e test_mode,
     _validate_source path_exists src = Raise e \/
     (exists p, _validate_source path_exists src = Return p /\
                perform p = Raise e) ->
     isinstance e "Exception" = false ->
     adapt test_mode path_exists perform src = Raise e)
  /\
  (raised_class (_validate_source path_exists src) = Some "FileNotFoundError" <->
   exists p, source_path src = Some p /\
     ((path_exists p = Return false /\
       startswith ["http://"; "https://"] (str_of_Path p) = false) \/
      (exists e, path_exists p = Raise e /\ exn_class e = "FileNotFoundError")))
  /\
  (forall p e,
     source_path src = Some p -> path_exists p = Raise e ->
     _validate_source path_exists src = Raise e).
Proof.
  split; [|split; [|split; [|split]]].
  - intros e Hraised He. unfold adapt.
    destruct Hraised as [Hv | (p & Hv & Hp)]; rewrite Hv; [|rewrite Hp];
      rewrite !(adapt_handler_caught _ _ e He); split; try reflexivity;
      eexists; repeat split.
  - intros e. unfold adapt.
    destruct (_validate_source path_exists src) as [p|e0].
    + destruct (perform p) as [vs|e1]; [discriminate|].
      apply adapt_handler_raises.
    + apply adapt_handler_raises.
  - intros e test_mode Hraised He. unfold adapt.
    destruct Hraised as [Hv | (p & Hv & Hp)]; rewrite Hv; [|rewrite Hp];
      unfold adapt_handler; rewrite He; reflexivity.
  - destruct src as [s|p|ty repr]; simpl.
    + rewrite check_exists_raises. split.
      * intros H. exists (Path_of_str s). auto.
      * intros (p & Hp & H). inversion Hp; subst. exact H.
    + rewrite check_exists_raises. split.
      * intros H. exists p. auto.
      * intros (p' & Hp & H). inversion Hp; subst. exact H.
    + split; [discriminate|]. intros (p & Hp & _). discriminate.
  - intros p e Hp He. destruct src as [s|p'|ty repr]; simpl in *;
      inversion Hp; subst; unfold check_exists; rewrite He; reflexivity.
Qed.

End Adapt.

Section AdaptExamples.
Import Py Models BaseFixed Instances Posix.

(** C10 as stated fails: with [test_mode] false, a cancellation that
    arrives while [_perform_adaptation] is awaited leaves [adapt] as an
    exception. [CancelledError] is no instance of [Exception]. And for a
    name that the file system refuses as too long, the path does not
    exist, yet what [_validate_source] raises is the [OSError] of
    [Path.exists], not [FileNotFoundError]. *)
Lemma adapt_lets_cancellation_through :
  isinstance (CancelledError "") "Exception" = false /\
  adapt (VS:=scene_video_set) (PL:=posix_path) false (fun _ => Return true)
    (fun _ => Raise (CancelledError "")) (SourceStr "slides.md")
  = Raise (CancelledError "") /\
  raised_class
    (_validate_source (PL:=posix_path)
       (fun _ => Raise (OSError "[Errno 36] File name too long"))
       (SourceStr "slides.md"))
  = Some "OSError".
Proof. repeat split. Qed.

End AdaptExamples.

(* ===================================================================== *)
(** ** The document adapter *)
(* ===================================================================== *)

Section BlankLines.
Import Text DocumentAdapter.

Lemma newline_is_space : is_space newline = true.
Proof. reflexivity. Qed.

Lemma is_blank_cons (c : ascii) (s : string) :
  is_blank (String c s) = is_space c && is_blank s.
Proof. reflexivity. Qed.

(** Splitting whitespace at newlines leaves blank lines. *)
Lemma lines_of_whitespace (content : string) :
  all_chars is_space content = true ->
  forallb is_blank (lines content) = true.
Proof.
  unfold lines. induction content as [|c rest IH]; [reflexivity|].
  intros H. simpl in H. apply andb_prop in H as [Hc Hrest].
  specialize (IH Hrest). cbn [split_on].
  destruct (Ascii.eqb c newline).
  - cbn [forallb]. rewrite IH. reflexivity.
  - destruct (split_on newline rest) as [|piece more]; cbn [forallb] in *.
    + rewrite is_blank_cons, Hc. reflexivity.
    + apply andb_prop in IH as [Hp Hm].
      rewrite is_blank_cons, Hc, Hp, Hm. reflexivity.
Qed.

Lemma lstrip_blank (line : string) :
  is_blank line = true -> lstrip line = "".
Proof.
  induction line as [|c rest IH]; [reflexivity|].
  rewrite is_blank_cons. intros H. apply andb_prop in H as [Hc Hrest].
  cbn [lstrip]. rewrite Hc. auto.
Qed.

Lemma blank_is_plain (line : string) :
  is_blank line = true -> is_fence line = false /\ is_heading line = false.
Proof.
  intros H. unfold is_fence, is_heading. rewrite (lstrip_blank line H).
  split; reflexivity.
Qed.

(** Blank lines open no section: they all go to the current one. *)
Lemma split_blank_lines (ls : list string) (current : section) :
  forallb is_blank ls = true ->
  split_sections false current ls
  = [mk_section (heading current) (body current ++ ls)].
Proof.
  revert current. induction ls as [|line rest IH]; intros current H; simpl.
  - rewrite app_nil_r. destruct current; reflexivity.
  - simpl in H. apply andb_prop in H as [Hline Hrest].
    destruct (blank_is_plain line Hline) as [-> ->]. simpl.
    rewrite (IH _ Hrest). unfold add_line. simpl.
    rewrite <- app_assoc. reflexivity.
Qed.

Lemma pieces_of_whitespace (content : string) :
  all_chars is_space content = true ->
  pieces content = [mk_section "" (lines content)].
Proof.
  intros H. unfold pieces.
  rewrite split_blank_lines by (apply lines_of_whitespace; exact H).
  reflexivity.
Qed.

Lemma no_content_in_whitespace (content : string) :
  all_chars is_space content = true -> content_sections content = [].
Proof.
  intros H. unfold content_sections. rewrite (pieces_of_whitespace content H).
  simpl. unfold has_content. simpl.
  rewrite (lines_of_whitespace content H). reflexivity.
Qed.

End BlankLines.

Section Framing.
Import Scenes Text DocumentAdapter.

Lemma truncate_fits : fits truncate.
Proof.
  split; intros d room l; unfold truncate.
  - apply firstn_le_length.
  - intros H. apply firstn_all2. exact H.
Qed.

Lemma scene_of_fenced (s : section) :
  has_fence s = true -> type (section_scene s) = Command.
Proof. intros H. unfold section_scene. rewrite H. reflexivity. Qed.

Lemma scene_of_unfenced (s : section) :
  has_fence s = false -> type (section_scene s) = List.
Proof.
  intros H. unfold section_scene. rewrite H.
  destruct (bullet_dominated s); reflexivity.
Qed.

Lemma scene_type_eqb_refl (ty : scene_type) : scene_type_eqb ty ty = true.
Proof. destruct ty; reflexivity. Qed.

(** A kept section of some kind puts a scene of that kind in the video. *)
Lemma kept_section_shows (p : section -> bool) (ty : scene_type)
    (kept : list section) (first last : Scene) :
  (forall s, p s = true -> type (section_scene s) = ty) ->
  existsb p kept = true ->
  existsb (scene_type_eqb ty)
    (map type (first :: map section_scene kept ++ [last])) = true.
Proof.
  intros Hp Hex. apply existsb_exists in Hex as (s & Hin & Hs).
  apply existsb_exists. exists ty. split; [|apply scene_type_eqb_refl].
  rewrite <- (Hp s Hs). apply in_map. right. apply in_or_app. left.
  apply in_map. exact Hin.
Qed.

Lemma last_of_framed (first last_scene : Scene) (middle : list Scene) :
  last (map type (first :: middle ++ [last_scene])) Title = type last_scene.
Proof.
  rewrite app_comm_cons, map_app. apply last_last.
Qed.

End Framing.

Section DocumentClaims.
Import Scenes Text DocumentAdapter.
Variable fit : nat -> nat -> list section -> list section.
Hypothesis fit_fits : fits fit.

(** C6. A document that is empty or holds whitespace only is adapted
    without error, to a video set whose single video has exactly two
    scenes: the title scene and the outro scene. *)
Theorem blank_document_gives_title_and_outro
    (cfg : config) (read : string -> option string) (source content : string) :
  read source = Some content ->
  all_chars is_space content = true ->
  exists vs v,
    adapt fit cfg read source = inl vs /\
    videos vs = [v] /\
    scene_types v = [Title; Outro] /\
    List.length (scenes v) = 2.
Proof.
  intros Hread Hblank. unfold adapt. rewrite Hread.
  eexists. eexists. split; [reflexivity|]. split; [reflexivity|].
  unfold scene_types. simpl. unfold build_scenes.
  rewrite (no_content_in_whitespace content Hblank).
  destruct fit_fits as [_ Hsame]. rewrite Hsame by (simpl; lia).
  split; reflexivity.
Qed.

(** Whatever the heuristic, three scenes cannot hold a command scene and a
    list scene between the title and the outro. *)
Lemma three_scenes_cannot_show_both (cfg : config) (source_name content : string) :
  max_scenes cfg <= 3 ->
  existsb (scene_type_eqb Command)
    (map type (build_scenes fit cfg source_name content))
  && existsb (scene_type_eqb List)
       (map type (build_scenes fit cfg source_name content)) = false.
Proof.
  intros Hmax. unfold build_scenes. destruct fit_fits as [Hroom _].
  specialize (Hroom (target_duration cfg) (max_scenes cfg - 2)
                    (content_sections content)).
  destruct (fit (target_duration cfg) (max_scenes cfg - 2)
              (content_sections content)) as [|s [|s' more]].
  - reflexivity.
  - simpl. destruct (type (section_scene s)); reflexivity.
  - simpl in Hroom. lia.
Qed.

End DocumentClaims.

Section DocumentExamples.
Import Scenes Text DocumentAdapter Instances.

(** The whitespace document of the tests, under truncation. *)
Lemma blank_document_gives_title_and_outro_witness :
  fits truncate /\
  test_files "blank.md" = Some whitespace_document /\
  all_chars is_space whitespace_document = true /\
  exists vs v,
    adapt truncate (mk_config 6 60) test_files "blank.md" = inl vs /\
    videos vs = [v] /\
    scene_types v = [Title; Outro] /\
    List.length (scenes v) = 2.
Proof.
  split; [exact truncate_fits|]. split; [reflexivity|]. split; [reflexivity|].
  apply (blank_document_gives_title_and_outro truncate truncate_fits
           (mk_config 6 60) test_files "blank.md" whitespace_document);
    reflexivity.
Defined.


End DocumentExamples.

(* ===================================================================== *)
(** ** Sources that look like URLs, on POSIX *)
(* ===================================================================== *)

Section PosixPaths.
Import Text Posix.

Lemma prefix_splits (p s : string) :
  String.prefix p s = true -> exists rest, s = p ++ rest.
Proof.
  revert s. induction p as [|a p IH]; intros s H.
  - exists s. reflexivity.
  - destruct s as [|b s]; simpl in H; [discriminate|].
    destruct (ascii_dec a b) as [->|]; [|discriminate].
    destruct (IH s H) as [rest ->]. exists rest. reflexivity.
Qed.

(** Both URL schemes put two slashes in a row. *)
Lemma url_has_double_slash (s : string) :
  BaseFixed.startswith ["http://"; "https://"] s = true ->
  double_slash s = true.
Proof.
  unfold BaseFixed.startswith. simpl. rewrite orb_false_r.
  intros H. apply orb_prop in H as [H | H];
    apply prefix_splits in H as [rest ->]; reflexivity.
Qed.

(** No piece of [s.split(sep)] holds the separator. *)
Lemma split_on_pieces (sep : ascii) (s piece : string) :
  In piece (split_on sep s) -> has_char sep piece = false.
Proof.
  revert piece. induction s as [|c rest IH]; intros piece Hin.
  - simpl in Hin. destruct Hin as [<- | []]. reflexivity.
  - cbn [split_on] in Hin. destruct (Ascii.eqb c sep) eqn:Hc.
    + destruct Hin as [<- | Hin]; [reflexivity | auto].
    + destruct (split_on sep rest) as [|first more].
      * destruct Hin as [<- | []]. simpl. rewrite Hc. reflexivity.
      * destruct Hin as [<- | Hin].
        -- simpl. rewrite Hc. apply IH. left. reflexivity.
        -- apply IH. right. exact Hin.
Qed.

Lemma component_shape (s part : string) :
  In part (components s) ->
  part <> "" /\ has_char slash part = false.
Proof.
  unfold components. intros Hin. apply filter_In in Hin as [Hin Hok].
  split.
  - intros ->. discriminate Hok.
  - apply (split_on_pieces slash s). exact Hin.
Qed.

Lemma starts_with_char_app (c : ascii) (a b : string) :
  a <> "" -> starts_with_char c (a ++ b) = starts_with_char c a.
Proof. destruct a; [congruence | reflexivity]. Qed.

Lemma no_char_no_start (c : ascii) (s : string) :
  has_char c s = false -> starts_with_char c s = false.
Proof.
  destruct s as [|a rest]; simpl; [reflexivity|].
  intros H. apply orb_false_elim in H as [H _]. exact H.
Qed.

Lemma double_slash_step (a b : ascii) (s : string) :
  double_slash (String a (String b s))
  = (Ascii.eqb a slash && Ascii.eqb b slash) || double_slash (String b s).
Proof. reflexivity. Qed.

Lemma clean_part_no_double_slash (part : string) :
  has_char slash part = false -> double_slash part = false.
Proof.
  induction part as [|a part IH]; [reflexivity|].
  intros Hclean. simpl in Hclean. apply orb_false_elim in Hclean as [Ha Hrest].
  destruct part as [|b part]; [reflexivity|].
  rewrite double_slash_step, Ha. apply IH. exact Hrest.
Qed.

(** A part without slashes, a slash, and a tail that has no double slash
    and does not begin with one: still no double slash. *)
Lemma double_slash_joined (part tail : string) :
  part <> "" -> has_char slash part = false ->
  double_slash tail = false -> starts_with_char slash tail = false ->
  double_slash (part ++ String slash tail) = false.
Proof.
  intros Hne Hpart Htail Hstart.
  induction part as [|a part IH]; [congruence|].
  simpl in Hpart. apply orb_false_elim in Hpart as [Ha Hpart].
  destruct part as [|b part].
  - change (String a "" ++ String slash tail) with (String a (String slash tail)).
    rewrite double_slash_step, Ha.
    destruct tail as [|c tail]; [reflexivity|].
    rewrite double_slash_step. simpl in Hstart. rewrite Hstart, andb_false_r.
    exact Htail.
  - change (String a (String b part) ++ String slash tail)
      with (String a (String b (part ++ String slash tail))).
    rewrite double_slash_step, Ha.
    apply IH; [discriminate | exact Hpart].
Qed.

Lemma join_of_components (parts : list string) :
  (forall part, In part parts -> part <> "" /\ has_char slash part = false) ->
  double_slash (join "/" parts) = false /\
  starts_with_char slash (join "/" parts) = false.
Proof.
  induction parts as [|part more IH]; intros Hparts; [split; reflexivity|].
  destruct (Hparts part (or_introl eq_refl)) as [Hne Hclean].
  assert (Hmore : forall q, In q more -> q <> "" /\ has_char slash q = false)
    by (intros q Hq; apply Hparts; right; exact Hq).
  destruct (IH Hmore) as [IHd IHs].
  destruct more as [|next more'].
  - simpl. split.
    + apply clean_part_no_double_slash. exact Hclean.
    + apply no_char_no_start. exact Hclean.
  - change (join "/" (part :: next :: more'))
      with (part ++ String slash (join "/" (next :: more'))).
    split.
    + apply double_slash_joined; assumption.
    + rewrite starts_with_char_app by exact Hne.
      apply no_char_no_start. exact Hclean.
Qed.

(** [str(Path(s))] never starts with a URL scheme: the slashes after the
    colon are collapsed into one. *)
Lemma normalize_is_no_url (s : string) :
  BaseFixed.startswith ["http://"; "https://"] (normalize s) = false.
Proof.
  destruct (BaseFixed.startswith ["http://"; "https://"] (normalize s)) eqn:Hurl;
    [|reflexivity].
  exfalso. unfold normalize in Hurl.
  destruct (join_of_components (components s) (component_shape s)) as [Hd Hs].
  unfold root_of in Hurl.
  destruct (String.prefix "//" s && negb (String.prefix "///" s));
    [discriminate Hurl|].
  destruct (String.prefix "/" s); [discriminate Hurl|].
  simpl in Hurl.
  destruct (join "/" (components s)) as [|c shown] eqn:Hj; [discriminate Hurl|].
  apply url_has_double_slash in Hurl. congruence.
Qed.

End PosixPaths.

Section FixedAdapterFacts.
Import Py Asyncio Models BaseFixed RuntimeValues Posix.

(** X1. On POSIX the test for an [http://] or [https://] prefix never
    exempts a source given as a string: it is made on [str(Path(source))],
    where the double slash is gone. So such a source is accepted only
    when [Path.exists] answers yes for the normalised path; when it
    answers no, [FileNotFoundError] is raised, also for a URL; and when
    [Path.exists] raises, that exception is the one raised. *)
Theorem posix_string_source_must_exist
    {VS : VideoSetClass} (path_exists : string -> outcome bool) (s : string) :
  _validate_source (PL:=posix_path) path_exists (SourceStr s)
  = match path_exists (normalize s) with
    | Return true => Return (normalize s)
    | Return false =>
        Raise (FileNotFoundError ("Source file not found: " ++ normalize s))
    | Raise e => Raise e
    end
  /\
  (raised_class (_validate_source (PL:=posix_path) path_exists (SourceStr s))
   = Some "FileNotFoundError"
   <-> path_exists (normalize s) = Return false \/
       exists e, path_exists (normalize s) = Raise e /\
                 exn_class e = "FileNotFoundError").
Proof.
  split.
  - unfold _validate_source, check_exists. cbn [Path_of_str str_of_Path posix_path].
    destruct (path_exists (normalize s)) as [[|]|e]; [reflexivity| |reflexivity].
    rewrite normalize_is_no_url. reflexivity.
  - unfold _validate_source. rewrite check_exists_raises.
    cbn [Path_of_str str_of_Path posix_path].
    split.
    + intros [[H _] | H]; auto.
    + intros [H | H]; [left; split; [exact H | apply normalize_is_no_url] | auto].
Qed.

(** X2. [parse] of [base_fixed.py] over its own [adapt]: with [test_mode]
    false an exception of the validation reaches the caller as
    [ValueError] with the text [Adapter failed: str(e)]; with [test_mode]
    true the exception itself reaches the caller, unless it is a
    [RuntimeError]. *)
Theorem validation_error_reaches_the_caller
    {VS : VideoSetClass} {PL : PathLib}
    (t : thread_id) (w : world) (path_exists : Path -> outcome bool)
    (perform : Path -> outcome VideoSet) (src : source) (e : exn) :
  wf_world w ->
  _validate_source path_exists src = Raise e ->
  isinstance e "Exception" = true ->
  fst (parse t (adapt false path_exists perform src) w)
  = Raise (ValueError ("Adapter failed: " ++ exn_str e))
  /\
  (isinstance e "RuntimeError" = false ->
   fst (parse t (adapt true path_exists perform src) w) = Raise e).
Proof.
  intros Hwf Hv He. unfold adapt. rewrite Hv.
  rewrite !(adapt_handler_caught _ _ e He). split.
  - destruct (parse_after_return t w
                (IsInputAdapterResult
                   (mk_result false None (Some (exn_str e))
                      [("source", str_of_source src)])) Hwf) as [_ Hf].
    rewrite Hf. reflexivity.
  - intros Hrt. destruct (running w t) as [active|] eqn:Hrun.
    + destruct (wf_thread w t active Hwf Hrun) as [Ht _].
      rewrite (fixed_parse_async t _ w active Hrun Ht), Hrt. reflexivity.
    + rewrite (fixed_parse_sync t _ w Hrun). reflexivity.
Qed.

(** X3. Given the same outcome of [adapt], the two wrappers hand back
    the same thing exactly when [adapt] did not return a result object
    that is an instance of one module's [InputAdapterResult] only: such an
    object is a result for one wrapper and an unexpected type for the
    other. This holds outside a running loop, and under one whenever
    [adapt] raises no [RuntimeError]. *)
Theorem wrappers_agree
    {VS : VideoSetClass} (t : thread_id) (o : outcome runtime_value) (w : world) :
  wf_world w ->
  running w t = None \/
  (forall e, o = Raise e -> isinstance e "RuntimeError" = false) ->
  (fst (Base.parse t (as_seen seen_by_base o) w)
   = fst (parse t (as_seen seen_by_fixed o) w)
   <-> one_class_only o = false).
Proof.
  intros Hwf Hcase.
  assert (Hb : fst (Base.parse t (as_seen seen_by_base o) w)
               = Base.settle (as_seen seen_by_base o)).
  { destruct (running w t) as [active|] eqn:Hrun.
    - destruct Hcase as [Hnone | Hquiet]; [discriminate|].
      destruct (wf_thread w t active Hwf Hrun) as [Ht _].
      rewrite (base_parse_async t _ w active Hrun Ht).
      destruct o as [x|e]; [reflexivity|]. cbn [as_seen].
      rewrite (Hquiet e eq_refl). reflexivity.
    - rewrite (base_parse_sync t _ w Hrun). reflexivity. }
  assert (Hf : fst (parse t (as_seen seen_by_fixed o) w)
               = Base.settle (as_seen seen_by_fixed o)).
  { destruct (running w t) as [active|] eqn:Hrun.
    - destruct Hcase as [Hnone | Hquiet]; [discriminate|].
      destruct (wf_thread w t active Hwf Hrun) as [Ht _].
      rewrite (fixed_parse_async t _ w active Hrun Ht).
      destruct o as [x|e]; [reflexivity|]. cbn [as_seen].
      rewrite (Hquiet e eq_refl). reflexivity.
    - rewrite (fixed_parse_sync t _ w Hrun). reflexivity. }
  rewrite Hb, Hf.
  destruct o as [[of_base of_shared ty r|v|ty]|e];
    cbn [as_seen seen_by_base seen_by_fixed one_class_only Base.settle];
    try (split; reflexivity).
  destruct of_base, of_shared; cbn [xorb Base.handle_result];
    try (split; reflexivity);
    destruct (success r && truth_optional (video_set r));
    split; discriminate.
Qed.

End FixedAdapterFacts.

Section FixedAdapterWitnesses.
Import Py Asyncio Models BaseFixed RuntimeValues Posix Instances.

Lemma validation_error_reaches_the_caller_witness :
  wf_world async_world /\
  fst (parse (VS:=scene_video_set) 0
         (adapt (PL:=posix_path) false (fun _ => Return false)
            (fun _ => Return demo_set) (SourceStr "https://example.org/deck.md"))
         async_world)
  = Raise (ValueError
             "Adapter failed: Source file not found: https:/example.org/deck.md").
Proof.
  split; [exact async_world_wf|].
  exact (proj1 (validation_error_reaches_the_caller
                  (VS:=scene_video_set) (PL:=posix_path)
                  0 async_world (fun _ => Return false) (fun _ => Return demo_set)
                  (SourceStr "https://example.org/deck.md")
                  (FileNotFoundError
                     "Source file not found: https:/example.org/deck.md")
                  async_world_wf eq_refl eq_refl)).
Defined.

(** An object of both classes under a running loop: the wrappers agree. *)
Lemma wrappers_agree_witness :
  wf_world async_world /\
  (running async_world 0 = None \/
   (forall e,
      Return (ResultObject (VS:=scene_video_set) true true
                "<class 'InputAdapterResult'>"
                (mk_result (VS:=scene_video_set) true (Some demo_set) None []))
      = Raise e ->
      isinstance e "RuntimeError" = false)) /\
  fst (Base.parse (VS:=scene_video_set) 0
         (as_seen seen_by_base
            (Return (ResultObject true true "<class 'InputAdapterResult'>"
                       (mk_result (VS:=scene_video_set) true (Some demo_set)
                          None []))))
         async_world)
  = fst (parse (VS:=scene_video_set) 0
           (as_seen seen_by_fixed
              (Return (ResultObject true true "<class 'InputAdapterResult'>"
                         (mk_result (VS:=scene_video_set) true (Some demo_set)
                            None []))))
           async_world).
Proof.
  split; [exact async_world_wf|].
  split; [right; intros e He; discriminate He|].
  apply (wrappers_agree (VS:=scene_video_set) 0
           (Return (ResultObject true true "<class 'InputAdapterResult'>"
                      (mk_result (VS:=scene_video_set) true (Some demo_set)
                         None [])))
           async_world async_world_wf).
  - right. intros e He. discriminate He.
  - reflexivity.
Defined.

End FixedAdapterWitnesses.

(* ===================================================================== *)
(** ** The audio scripts *)
(* ===================================================================== *)

Section Voices.
Import Py Dict.

Lemma get_in_values {V} (k : string) (d : dict V) (v : V) :
  get k d = Some v -> In v (values d).
Proof.
  induction d as [|[k' v'] rest IH]; simpl; [discriminate|].
  destruct (String.eqb k k').
  - intros H; inversion H; subst. left. reflexivity.
  - intros H. right. apply IH. exact H.
Qed.

(** A voice table answers for every voice a mapping can choose when it
    answers for the mapping's values and for the default. *)
Lemma chosen_voice_is_known (voices mapping : dict string) (default k : string) :
  forallb (fun v => is_some (get v voices)) (default :: values mapping) = true ->
  exists name, item (get_or k mapping default) voices = Return name.
Proof.
  intros Hall. rewrite forallb_forall in Hall.
  assert (Hin : In (get_or k mapping default) (default :: values mapping)).
  { unfold get_or. destruct (get k mapping) as [v|] eqn:Hk.
    - right. apply (get_in_values k). exact Hk.
    - left. reflexivity. }
  specialize (Hall _ Hin). unfold item.
  destruct (get (get_or k mapping default) voices) as [name|];
    [exists name; reflexivity | discriminate].
Qed.

(** X4. In both audio scripts the voice chosen for a verb, from the
    verb's entry or the default [us_female_1], is a key of [VOICES]: the
    lookup [VOICES[voice]] in [generate_audio] raises no [KeyError],
    whatever the verb. *)
Theorem every_chosen_voice_is_in_VOICES (verb : string) :
  (exists name,
     GenerateAudio.voice_name (GenerateAudio.voice_for verb) = Return name) /\
  (exists name,
     GenerateNarrativeAudio.voice_name (GenerateNarrativeAudio.voice_for verb)
     = Return name).
Proof.
  split.
  - apply (chosen_voice_is_known GenerateAudio.VOICES
             GenerateAudio.VERB_VOICE_MAPPING).
    vm_compute. reflexivity.
  - apply (chosen_voice_is_known GenerateNarrativeAudio.VOICES
             GenerateNarrativeAudio.VERB_VOICES).
    vm_compute. reflexivity.
Qed.

End Voices.

Section Tasks.
Import GenerateAudio.

Lemma tasks_of_length (s : synonym) :
  List.length (tasks_of s) = S (List.length (examples s)).
Proof. unfold tasks_of. simpl. rewrite length_map. reflexivity. Qed.

(** X5. [generate_all_audio] queues one task per verb and one per example,
    the numbers its summary prints, and every task of a synonym carries
    the voice of its verb. *)
Theorem one_task_per_verb_and_example (synonyms : list synonym) :
  List.length (all_tasks synonyms)
  = List.length synonyms + example_count synonyms
  /\
  (forall s t, In s synonyms -> In t (tasks_of s) ->
     In t (all_tasks synonyms) /\ task_voice t = voice_for (verb s)).
Proof.
  split.
  - unfold all_tasks, example_count.
    induction synonyms as [|s rest IH]; [reflexivity|].
    cbn [flat_map map list_sum List.length].
    rewrite length_app, tasks_of_length, IH. simpl. lia.
  - intros s t Hs Ht. split.
    + unfold all_tasks. apply in_flat_map. exists s. split; assumption.
    + unfold tasks_of in Ht. destruct Ht as [<- | Ht]; [reflexivity|].
      apply in_map_iff in Ht as (example & <- & _). reflexivity.
Qed.

End Tasks.

(* ===================================================================== *)
(** ** The production loop of the runner *)
(* ===================================================================== *)

Section Production.
Import Py OpenmmRunner.

Lemma round_up_step (x step : nat) :
  0 < step -> 0 < x ->
  (x + step - 1) / step = S ((x - step + step - 1) / step).
Proof.
  intros Hstep Hx. destruct (Nat.le_gt_cases step x) as [Hge | Hlt].
  - replace (x + step - 1) with ((x - step + step - 1) + 1 * step) by lia.
    rewrite Nat.div_add by lia. lia.
  - replace (x - step + step - 1) with (step - 1) by lia.
    rewrite (Nat.div_small (step - 1)) by lia.
    replace (x + step - 1) with ((x - 1) + 1 * step) by lia.
    rewrite Nat.div_add by lia. rewrite Nat.div_small by lia. reflexivity.
Qed.

(** [len(range(i, stop, step))] *)
Lemma range_from_length (fuel i stop step : nat) :
  0 < step -> stop - i <= fuel ->
  List.length (range_from fuel i stop step) = (stop - i + step - 1) / step.
Proof.
  intros Hstep. revert i. induction fuel as [|fuel IH]; intros i Hfuel.
  - simpl. replace (stop - i) with 0 by lia. simpl.
    rewrite Nat.div_small by lia. reflexivity.
  - simpl. destruct (Nat.ltb_spec i stop) as [Hlt | Hge].
    + simpl. rewrite IH by lia.
      rewrite (round_up_step (stop - i) step) by lia.
      replace (stop - (i + step)) with (stop - i - step) by lia. reflexivity.
    + simpl. replace (stop - i) with 0 by lia. simpl.
      rewrite Nat.div_small by lia. reflexivity.
Qed.

(** What [n] rounds make of a state. *)
Lemma rounds_add_up (total freq : nat) (rounds : list nat) (st : run_state) :
  let st' := fold_left (fun s _ => round total freq s) rounds st in
  currentStep st' = currentStep st + List.length rounds * freq /\
  List.length (frames st') = List.length (frames st) + List.length rounds /\
  report_interval st' = report_interval st /\
  reported_step st'
  = reported_step st + List.length rounds * report_interval st /\
  List.length (log_lines st') = List.length (log_lines st) + List.length rounds.
Proof.
  revert st. induction rounds as [|r rest IH]; intros st; simpl.
  - repeat split; lia.
  - destruct (IH (round total freq st)) as (Hc & Hf & Hi & Hr & Hl).
    simpl in *. rewrite Hc, Hf, Hi, Hr, Hl.
    rewrite !length_app. simpl. repeat split; lia.
Qed.

(** X6. With a positive [output_frequency], [production_run] makes
    [total_steps / output_frequency] rounds, rounded up: it advances the
    simulation by that many times [output_frequency], takes one energy
    frame and writes one progress line per round. Entered as
    [run_simulation] enters it, the progress counter ends at no less than
    [total_steps], and at [total_steps] exactly when [output_frequency]
    divides it. A zero [output_frequency] raises [ValueError]. *)
Theorem production_run_rounds_up (total freq start : nat) :
  (freq = 0 -> raises (production_run total freq (fresh_run start freq)) = true)
  /\
  (0 < freq ->
   exists st,
     production_run total freq (fresh_run start freq) = Return st /\
     currentStep st = start + rounds_needed total freq * freq /\
     List.length (frames st) = rounds_needed total freq /\
     List.length (log_lines st) = rounds_needed total freq /\
     reported_step st = rounds_needed total freq * freq /\
     total <= reported_step st /\
     (reported_step st = total <-> total mod freq = 0)).
Proof.
  split.
  - intros ->. reflexivity.
  - intros Hfreq. unfold production_run, range.
    destruct (Nat.eqb_spec freq 0) as [Hz | _]; [lia|].
    eexists. split; [reflexivity|].
    pose proof (rounds_add_up total freq (range_from total 0 total freq)
                  (fresh_run start freq)) as H.
    cbv zeta in H. destruct H as (Hc & Hf & _ & Hr & Hl).
    rewrite range_from_length in Hc, Hf, Hr, Hl by lia.
    replace (total - 0) with total in * by lia.
    fold (rounds_needed total freq) in *. simpl in Hc, Hf, Hr, Hl.
    rewrite Hc, Hf, Hr, Hl.
    assert (Hup : total <= rounds_needed total freq * freq /\
                  (rounds_needed total freq * freq = total <-> total mod freq = 0)).
    { unfold rounds_needed.
      pose proof (Nat.div_mod_eq total freq) as Hdm.
      pose proof (Nat.mod_upper_bound total freq ltac:(lia)) as Hmod.
      destruct (Nat.eq_dec (total mod freq) 0) as [H0 | Hn0].
      - replace (total + freq - 1) with ((freq - 1) + (total / freq) * freq) by nia.
        rewrite Nat.div_add by lia. rewrite Nat.div_small by lia.
        split; [nia|]. split; [intros _; exact H0 | intros _; nia].
      - replace (total + freq - 1)
          with ((total mod freq - 1) + (total / freq + 1) * freq) by nia.
        rewrite Nat.div_add by lia. rewrite Nat.div_small by lia.
        split; [nia|]. split; [intros Heq; nia | intros H0; contradiction]. }
    repeat split; try lia; try apply Hup.
Qed.

End Production.

(* ===================================================================== *)
(** ** What the wrappers leave behind *)
(* ===================================================================== *)

Section WrapperTraces.
Import Py Asyncio Models Hygiene.
Context {VS : VideoSetClass}.

Lemma parse_ends_in (t : thread_id) (adapt : outcome adapt_value) (w : world) :
  wf_world w ->
  ends_in true t adapt w (snd (Base.parse t adapt w)) /\
  ends_in false t adapt w (snd (BaseFixed.parse t adapt w)).
Proof.
  intros Hwf. unfold ends_in. destruct (running w t) as [active|] eqn:Hrun.
  - destruct (wf_thread w t active Hwf Hrun) as [Ht Hl].
    rewrite (base_parse_async t adapt w active Hrun Ht).
    rewrite (fixed_parse_async t adapt w active Hrun Ht).
    destruct adapt as [result|e]; [cbn [snd]; auto|].
    destruct (isinstance e "RuntimeError"); cbn [snd]; split; eauto 6.
  - rewrite (base_parse_sync t adapt w Hrun), (fixed_parse_sync t adapt w Hrun).
    cbn [snd]. auto.
Qed.

(** X7. Neither wrapper leaks a loop or a thread: whatever [adapt] does,
    every event loop the call makes is closed and every worker it starts
    is joined by the time the call ends, also when it ends in an
    exception; a call makes at most two loops and at most one worker. *)
Theorem parse_closes_its_loops_and_joins_its_worker
    (t : thread_id) (adapt : outcome adapt_value) (w w' : world) :
  wf_world w ->
  w' = snd (Base.parse t adapt w) \/ w' = snd (BaseFixed.parse t adapt w) ->
  all_loops_closed (events_since w w') = true /\
  all_workers_joined (events_since w w') = true /\
  List.length (workers_spawned (events_since w w')) <= 1 /\
  List.length (loops_created (events_since w w')) <= 2.
Proof.
  intros Hwf Hw'.
  assert (Hend : exists unset, ends_in unset t adapt w w').
  { destruct (parse_ends_in t adapt w Hwf) as [Hb Hf].
    destruct Hw' as [-> | ->]; eauto. }
  destruct Hend as [unset Hend].
  assert (Hl : Nat.eqb (next_loop w) (next_loop w) = true) by apply Nat.eqb_refl.
  assert (Hn : Nat.eqb (next_thread w) (next_thread w) = true) by apply Nat.eqb_refl.
  assert (Ht : Nat.eqb t t = true) by apply Nat.eqb_refl.
  destruct Hend as [-> | [-> | [[active ->] | [active ->]]]];
    [ rewrite events_after_own_loop
    | rewrite events_after_worker
    | rewrite events_after_worker_refused, events_after_worker
    | rewrite events_after_worker_refused_loop, events_after_worker ];
    destruct unset; simpl; rewrite ?Hl, ?Hn, ?Ht; simpl; repeat split; lia.
Qed.

(** X9. [parse] of [base_fixed.py] never undoes its
    [asyncio.set_event_loop]. Called outside a running loop, or under one
    when [adapt] raises [RuntimeError], it leaves the calling thread with
    a loop of its own making as the current loop, and that loop is
    closed. Under a running loop otherwise, it sets no loop on the
    calling thread. *)
Theorem fixed_parse_leaves_a_closed_loop_current
    (t : thread_id) (adapt : outcome adapt_value) (w : world) :
  wf_world w ->
  (running w t = None \/
   (exists e, adapt = Raise e /\ isinstance e "RuntimeError" = true) ->
   exists l,
     next_loop w <= l /\
     current_loop t (events_since w (snd (BaseFixed.parse t adapt w))) = Some l /\
     existsb (closes l) (events_since w (snd (BaseFixed.parse t adapt w))) = true)
  /\
  (running w t <> None ->
   (forall e, adapt = Raise e -> isinstance e "RuntimeError" = false) ->
   current_loop t (events_since w (snd (BaseFixed.parse t adapt w))) = None).
Proof.
  intros Hwf.
  assert (Hl : Nat.eqb (next_loop w) (next_loop w) = true) by apply Nat.eqb_refl.
  assert (Ht : Nat.eqb t t = true) by apply Nat.eqb_refl.
  unfold current_loop.
  destruct (running w t) as [active|] eqn:Hrun.
  - destruct (wf_thread w t active Hwf Hrun) as [Hlt _].
    assert (Hne : Nat.eqb (next_thread w) t = false)
      by (apply Nat.eqb_neq; lia).
    rewrite (fixed_parse_async t adapt w active Hrun Hlt). split.
    + intros [Hnone | (e & -> & He)]; [discriminate|]. rewrite He.
      exists (S (next_loop w)). cbn [snd].
      rewrite events_after_worker_refused_loop, events_after_worker.
      simpl. rewrite Hne, Ht, Hl. simpl. repeat split; lia.
    + intros _ Hquiet. destruct adapt as [result|e].
      * cbn [snd]. rewrite events_after_worker. simpl. rewrite Hne. reflexivity.
      * rewrite (Hquiet e eq_refl). cbn [snd]. rewrite events_after_worker.
        simpl. rewrite Hne. reflexivity.
  - rewrite (fixed_parse_sync t adapt w Hrun). split.
    + intros _. exists (next_loop w). cbn [snd]. rewrite events_after_own_loop.
      simpl. rewrite Ht, Hl. repeat split; lia.
    + intros Hsome. congruence.
Qed.

End WrapperTraces.

Section WrapperTraceWitnesses.
Import Py Asyncio Models Hygiene Instances.

Lemma parse_closes_its_loops_and_joins_its_worker_witness :
  wf_world async_world /\
  all_loops_closed
    (events_since async_world
       (snd (BaseFixed.parse (VS:=scene_video_set) 0
               (Raise (RuntimeError "boom")) async_world))) = true /\
  all_workers_joined
    (events_since async_world
       (snd (BaseFixed.parse (VS:=scene_video_set) 0
               (Raise (RuntimeError "boom")) async_world))) = true.
Proof.
  split; [exact async_world_wf|].
  destruct (parse_closes_its_loops_and_joins_its_worker
              (VS:=scene_video_set) 0 (Raise (RuntimeError "boom"))
              async_world _ async_world_wf (or_intror eq_refl))
    as (Hloops & Hworkers & _).
  split; assumption.
Defined.

Lemma fixed_parse_leaves_a_closed_loop_current_witness :
  wf_world sync_world /\
  running sync_world 0 = None /\
  exists l,
    next_loop sync_world <= l /\
    current_loop 0
      (events_since sync_world
         (snd (BaseFixed.parse (VS:=scene_video_set) 0
                 (Return (@IsVideoSet scene_video_set demo_set)) sync_world)))
    = Some l /\
    existsb (closes l)
      (events_since sync_world
         (snd (BaseFixed.parse (VS:=scene_video_set) 0
                 (Return (@IsVideoSet scene_video_set demo_set)) sync_world)))
    = true.
Proof.
  split; [exact sync_world_wf|]. split; [reflexivity|].
  exact (proj1 (fixed_parse_leaves_a_closed_loop_current
                  (VS:=scene_video_set) 0
                  (Return (@IsVideoSet scene_video_set demo_set))
                  sync_world sync_world_wf)
               (or_introl eq_refl)).
Defined.

End WrapperTraceWitnesses.

(* ===================================================================== *)
(** ** What [BaseAdapter.adapt] hands back *)
(* ===================================================================== *)

Section AdaptResults.
Import Py Asyncio Models BaseFixed.
Context {VS : VideoSetClass} {PL : PathLib}.

(** X10. What [adapt] hands back is coherent. With [test_mode] false it
    is an [InputAdapterResult] in which [success] holds exactly when a
    video set is present and exactly when no error is recorded, and whose
    metadata has the one key [source]; a video set in it is the one
    [_perform_adaptation] returned for the validated path. With
    [test_mode] true it is that video set itself, never a result object.
    An exception leaves [adapt] only in test mode or when it is no
    instance of [Exception]. *)
Theorem adapt_hands_back_coherent_results
    (test_mode : bool) (path_exists : Path -> outcome bool)
    (perform : Path -> outcome VideoSet) (src : source) :
  match adapt test_mode path_exists perform src with
  | Return (IsInputAdapterResult r) =>
      test_mode = false /\
      (success r = true <-> video_set r <> None) /\
      (success r = true <-> error r = None) /\
      map fst (metadata r) = ["source"] /\
      (forall v, video_set r = Some v ->
         exists p, _validate_source path_exists src = Return p /\
                   perform p = Return v)
  | Return (IsVideoSet v) =>
      test_mode = true /\
      exists p, _validate_source path_exists src = Return p /\
                perform p = Return v
  | Return (IsOther _) => False
  | Raise e => test_mode = true \/ isinstance e "Exception" = false
  end.
Proof.
  unfold adapt, adapt_handler.
  destruct (_validate_source path_exists src) as [p|e] eqn:Hv.
  - destruct (perform p) as [vs|e] eqn:Hp.
    + destruct test_mode; simpl.
      * split; [reflexivity|]. exists p. auto.
      * repeat split; try discriminate; try reflexivity.
        intros v Hsome. inversion Hsome; subst. exists p. auto.
    + destruct (isinstance e "Exception") eqn:He; [destruct test_mode|];
        simpl; auto.
      repeat split; try discriminate; try reflexivity; intros H; congruence.
  - destruct (isinstance e "Exception") eqn:He; [destruct test_mode|];
      simpl; auto.
    repeat split; try discriminate; try reflexivity; intros H; congruence.
Qed.

(** X11. [parse] over [adapt], in [base_fixed.py]: when the source
    validates and [_perform_adaptation] returns a video set, [parse]
    returns exactly that video set whether [test_mode] is set or not;
    when [_perform_adaptation] raises an instance of [Exception], [parse]
    raises [ValueError] with the text [Adapter failed: str(e)] with
    [test_mode] false. *)
Theorem parse_returns_what_the_adaptation_made
    (t : thread_id) (w : world) (test_mode : bool) (path_exists : Path -> outcome bool)
    (perform : Path -> outcome VideoSet) (src : source) (p : Path) :
  (forall v, vs_truth v = true) ->
  wf_world w ->
  _validate_source path_exists src = Return p ->
  (forall vs, perform p = Return vs ->
     fst (parse t (adapt test_mode path_exists perform src) w)
     = Return (Some vs))
  /\
  (forall e, perform p = Raise e -> isinstance e "Exception" = true ->
     fst (parse t (adapt false path_exists perform src) w)
     = Raise (ValueError ("Adapter failed: " ++ exn_str e))).
Proof.
  intros Htrue Hwf Hv. split.
  - intros vs Hp. unfold adapt. rewrite Hv, Hp.
    destruct test_mode.
    + destruct (parse_after_return t w (IsVideoSet vs) Hwf) as [_ Hf].
      rewrite Hf. reflexivity.
    + destruct (parse_after_return t w
                  (IsInputAdapterResult
                     (mk_result true (Some vs) None [("source", str_of_Path p)]))
                  Hwf) as [_ Hf].
      rewrite Hf. simpl. rewrite Htrue. reflexivity.
  - intros e Hp He. unfold adapt. rewrite Hv, Hp.
    rewrite (adapt_handler_caught _ _ e He).
    destruct (parse_after_return t w
                (IsInputAdapterResult
                   (mk_result false None (Some (exn_str e))
                      [("source", str_of_source (SourcePath p))])) Hwf) as [_ Hf].
    rewrite Hf. reflexivity.
Qed.

End AdaptResults.

Section AdaptResultWitnesses.
Import Py Asyncio Models BaseFixed Posix Instances.

Lemma parse_returns_what_the_adaptation_made_witness :
  wf_world async_world /\
  _validate_source (PL:=posix_path) (fun _ => Return true) (SourceStr "talk//deck.md")
  = Return "talk/deck.md" /\
  fst (parse (VS:=scene_video_set) 0
         (adapt (PL:=posix_path) false (fun _ => Return true)
            (fun _ => Return demo_set) (SourceStr "talk//deck.md")) async_world)
  = Return (Some demo_set).
Proof.
  split; [exact async_world_wf|]. split; [reflexivity|].
  exact (proj1 (parse_returns_what_the_adaptation_made
                  (VS:=scene_video_set) (PL:=posix_path)
                  0 async_world false (fun _ => Return true) (fun _ => Return demo_set)
                  (SourceStr "talk//deck.md") "talk/deck.md"
                  (fun _ => eq_refl) async_world_wf eq_refl)
               demo_set eq_refl).
Defined.

End AdaptResultWitnesses.

(* ===================================================================== *)
(** ** The metadata of [generate_audio.py] *)
(* ===================================================================== *)

Section DictFacts.
Import Dict PyMore.

Lemma get_setitem_same {V} (k : string) (v : V) (d : dict V) :
  get k (setitem k v d) = Some v.
Proof.
  induction d as [|[k' v'] rest IH]; simpl.
  - rewrite String.eqb_refl. reflexivity.
  - destruct (String.eqb k k') eqn:Hk; simpl.
    + rewrite String.eqb_refl. reflexivity.
    + rewrite Hk. exact IH.
Qed.

Lemma get_setitem_other {V} (k k0 : string) (v : V) (d : dict V) :
  String.eqb k0 k = false -> get k0 (setitem k v d) = get k0 d.
Proof.
  intros Hne. induction d as [|[k' v'] rest IH]; simpl.
  - rewrite Hne. reflexivity.
  - destruct (String.eqb k k') eqn:Hk; simpl.
    + apply String.eqb_eq in Hk. subst k'. rewrite Hne. reflexivity.
    + rewrite IH. reflexivity.
Qed.

Lemma get_setitem {V} (k k0 : string) (v : V) (d : dict V) :
  get k0 (setitem k v d) = if String.eqb k0 k then Some v else get k0 d.
Proof.
  destruct (String.eqb k0 k) eqn:Hk.
  - apply String.eqb_eq in Hk. subst. apply get_setitem_same.
  - apply get_setitem_other. exact Hk.
Qed.

Lemma find_over_app {A} (p : A -> bool) (l1 l2 : list A) :
  find p (l1 ++ l2) = match find p l1 with Some x => Some x | None => find p l2 end.
Proof.
  induction l1 as [|x l1 IH]; simpl; [reflexivity|].
  destruct (p x); [reflexivity | exact IH].
Qed.

(** A dict filled by a loop of assignments holds, for each key, the value
    assigned last. *)
Lemma get_after_loop {A V} (key : A -> string) (val : A -> V)
    (items : list A) (d0 : dict V) (k : string) :
  get k (fold_left (fun d x => setitem (key x) (val x) d) items d0)
  = match find (fun x => String.eqb k (key x)) (rev items) with
    | Some x => Some (val x)
    | None => get k d0
    end.
Proof.
  revert d0. induction items as [|x rest IH]; intros d0; simpl; [reflexivity|].
  rewrite IH, find_over_app.
  destruct (find (fun y => String.eqb k (key y)) (rev rest)); [reflexivity|].
  simpl. rewrite get_setitem. destruct (String.eqb k (key x)); reflexivity.
Qed.

Lemma string_length_app (a b : string) :
  String.length (a ++ b) = String.length a + String.length b.
Proof. induction a as [|c a IH]; simpl; [reflexivity | rewrite IH; reflexivity]. Qed.

Lemma append_cancel_left (a b c : string) : a ++ b = a ++ c -> b = c.
Proof.
  induction a as [|x a IH]; simpl; [auto|].
  intros H. inversion H. auto.
Qed.

Lemma append_cancel_right (a b c : string) : a ++ c = b ++ c -> a = b.
Proof.
  revert b. induction a as [|x a IH]; intros b H.
  - destruct b as [|y b]; [reflexivity|].
    apply (f_equal String.length) in H. simpl in H.
    rewrite string_length_app in H. lia.
  - destruct b as [|y b].
    + apply (f_equal String.length) in H. simpl in H.
      rewrite string_length_app in H. lia.
    + simpl in H. inversion H. f_equal. apply IH. assumption.
Qed.

Lemma str_of_nat_injective (i j : nat) : str_of_nat i = str_of_nat j -> i = j.
Proof.
  unfold str_of_nat. intros H. apply Unsigned.to_uint_inj.
  assert (Hs : Some (Nat.to_uint i) = Some (Nat.to_uint j)).
  { rewrite <- (NilEmpty.usu (Nat.to_uint i)), <- (NilEmpty.usu (Nat.to_uint j)).
    rewrite H. reflexivity. }
  inversion Hs. reflexivity.
Qed.

Lemma injective_map_has_no_duplicates {A B} (f : A -> B) (l : list A) :
  (forall x y, f x = f y -> x = y) -> NoDup l -> NoDup (map f l).
Proof.
  intros Hinj Hl. induction Hl as [|x l Hx Hl IH]; simpl; constructor.
  - intros Hin. apply in_map_iff in Hin as (y & Hy & Hin).
    apply Hinj in Hy. subst y. contradiction.
  - exact IH.
Qed.

Lemma enumerate_numbers {A} (start : nat) (xs : list A) :
  map fst (enumerate start xs) = seq start (List.length xs) /\
  map snd (enumerate start xs) = xs.
Proof.
  revert start. induction xs as [|x xs IH]; intros start; simpl; [auto|].
  destruct (IH (S start)) as [-> ->]. auto.
Qed.

End DictFacts.

Section SplitFacts.

(** A string without the separator is one field. *)
Lemma split_on_one_field (sep : ascii) (s : string) :
  Posix.has_char sep s = false -> Text.split_on sep s = [s].
Proof.
  induction s as [|c rest IH]; [reflexivity|].
  cbn [Text.split_on Posix.has_char]. destruct (Ascii.eqb c sep); [discriminate|].
  simpl orb. intros H. rewrite (IH H). reflexivity.
Qed.

(** The first field ends at the first separator. *)
Lemma split_on_first_field (sep : ascii) (first rest : string) :
  Posix.has_char sep first = false ->
  Text.split_on sep (first ++ String sep rest) = first :: Text.split_on sep rest.
Proof.
  induction first as [|c f IH].
  - intros _. cbn [append Text.split_on]. rewrite Ascii.eqb_refl. reflexivity.
  - cbn [append Text.split_on Posix.has_char].
    destruct (Ascii.eqb c sep); [discriminate|]. simpl orb. intros H.
    rewrite (IH H). reflexivity.
Qed.

End SplitFacts.

Section AudioMetadataFacts.
Import Py Dict PyMore GenerateAudio AudioMetadata.

Lemma split_on_is_not_empty (sep : ascii) (s : string) :
  Text.split_on sep s <> [].
Proof.
  destruct s as [|c rest]; simpl; [discriminate|].
  destruct (Ascii.eqb c sep); [discriminate|].
  destruct (Text.split_on sep rest); discriminate.
Qed.

(** [s.split(sep)] has a second field exactly when [sep] occurs in [s]. *)
Lemma split_on_second_field (sep : ascii) (s : string) :
  Posix.has_char sep s = true <->
  exists first second more, Text.split_on sep s = first :: second :: more.
Proof.
  induction s as [|c rest IH].
  - simpl. split; [discriminate|]. intros (f & x & m & H). discriminate H.
  - cbn [Text.split_on Posix.has_char].
    pose proof (split_on_is_not_empty sep rest) as Hne.
    destruct (Ascii.eqb c sep).
    + simpl. split; [|reflexivity]. intros _.
      destruct (Text.split_on sep rest) as [|piece more]; [congruence|].
      exists "", piece, more. reflexivity.
    + simpl orb. rewrite IH.
      destruct (Text.split_on sep rest) as [|piece more]; [congruence|].
      split.
      * intros (f & x & m & H). inversion H; subst. eauto.
      * intros (f & x & m & H). inversion H; subst. eauto.
Qed.

(** X12. The voice loop of [generate_all_audio] takes the region and the
    gender of a voice from the first two fields of its id, split at
    underscores: the region is the text before the first underscore in
    capitals, the gender is the text between the first underscore and the
    second one (or the end). For an id without underscore it raises
    [IndexError], for any other id it gives an entry. Every id of [VOICES]
    has an underscore, so the loop fills [audio_metadata["voices"]] with
    one entry per voice, with the regions MX, CO, AR, US and the genders
    female and male. *)
Theorem voice_ids_need_an_underscore {U : StrUpper} :
  (forall voice_id voice_name,
     error_class (voice_entry voice_id voice_name) = Some "IndexError"
     <-> Posix.has_char underscore voice_id = false) /\
  (forall voice_id voice_name,
     Posix.has_char underscore voice_id = true ->
     exists entry, voice_entry voice_id voice_name = Return entry /\
                   name entry = voice_name) /\
  (forall first second tail voice_name,
     Posix.has_char underscore first = false ->
     Posix.has_char underscore second = false ->
     tail = "" \/ Posix.starts_with_char underscore tail = true ->
     voice_entry (first ++ "_" ++ second ++ tail) voice_name
     = Return (mk_voice_meta voice_name (str_upper first) second)) /\
  (exists section,
     voices_section VOICES = Return section /\
     map fst section = map fst VOICES /\
     map (fun item => name (snd item)) section = map snd VOICES /\
     map (fun item => region (snd item)) section
     = ["MX"; "MX"; "CO"; "CO"; "AR"; "AR"; "US"; "US"] /\
     map (fun item => gender (snd item)) section
     = ["female"; "male"; "female"; "male"; "female"; "male"; "female"; "male"]).
Proof.
  split; [|split; [|split]].
  - intros voice_id voice_name. unfold voice_entry.
    destruct (Posix.has_char underscore voice_id) eqn:Hc.
    + apply split_on_second_field in Hc as (f & x & m & ->). simpl.
      split; discriminate.
    + pose proof (split_on_is_not_empty underscore voice_id) as Hne.
      destruct (Text.split_on underscore voice_id) as [|f [|x m]] eqn:Hs;
        [congruence | simpl; split; reflexivity |].
      assert (Hhas : Posix.has_char underscore voice_id = true)
        by (apply split_on_second_field; rewrite Hs; eauto).
      congruence.
  - intros voice_id voice_name Hc. unfold voice_entry.
    apply split_on_second_field in Hc as (f & x & m & ->).
    eexists. split; reflexivity.
  - intros first second tail voice_name Hf Hs Htail. unfold voice_entry.
    change (first ++ "_" ++ second ++ tail)
      with (first ++ String underscore (second ++ tail)).
    rewrite (split_on_first_field underscore first _ Hf).
    destruct Htail as [-> | Htail].
    + replace (second ++ "") with second
        by (clear; induction second as [|c s IH]; simpl; congruence).
      rewrite (split_on_one_field underscore second Hs). reflexivity.
    + destruct tail as [|c more]; [discriminate|].
      unfold Posix.starts_with_char in Htail.
      apply Ascii.eqb_eq in Htail. subst c.
      rewrite (split_on_first_field underscore second more Hs). reflexivity.
  - eexists. split.
    + unfold VOICES. cbn [voices_section voice_entry Text.split_on underscore].
      simpl. rewrite !str_upper_ascii by reflexivity. reflexivity.
    + repeat split.
Qed.

Lemma last_with_verb (v : string) (synonyms : list synonym) (s : synonym) :
  last_with v synonyms = Some s -> In s synonyms /\ verb s = v.
Proof.
  unfold last_with. intros H. apply find_some in H as [Hin Hv].
  split; [apply in_rev; exact Hin|]. symmetry. apply String.eqb_eq. exact Hv.
Qed.

Lemma last_with_none (v : string) (synonyms : list synonym) :
  last_with v synonyms = None -> forall s, In s synonyms -> verb s <> v.
Proof.
  unfold last_with. intros H s Hin Hv.
  apply in_rev in Hin. pose proof (find_none _ _ H s Hin) as Hf.
  simpl in Hf. subst v. rewrite String.eqb_refl in Hf. discriminate.
Qed.

(** The list built for one synonym: its examples in order, numbered from
    one, all with the verb's voice. *)
Lemma example_entries_shape (s : synonym) :
  map text (example_entries s) = examples s /\
  map file (example_entries s)
  = map (example_file (verb s)) (seq 1 (List.length (examples s))) /\
  map voice (example_entries s)
  = map (fun _ => voice_for (verb s)) (examples s).
Proof.
  unfold example_entries. rewrite !map_map. simpl.
  destruct (enumerate_numbers 1 (examples s)) as [Hfst Hsnd].
  split; [|split].
  - rewrite <- Hsnd at 2. reflexivity.
  - rewrite <- Hfst, map_map. reflexivity.
  - rewrite <- Hsnd at 2. rewrite map_map. reflexivity.
Qed.

(** X13. After the loop of [generate_all_audio], [audio_metadata["verbs"]]
    and [audio_metadata["examples"]] have an entry for a verb exactly
    when a synonym has that verb. The entries are those of the last
    synonym with the verb: the examples entry lists its examples in
    order, the i-th (from 1) with the file
    [assets/audio/examples/{verb}_example_{i}.mp3], the verb's voice and
    the example as text. *)
Theorem metadata_holds_the_last_synonym_of_a_verb
    (synonyms : list synonym) (v : string) :
  get v (verbs_section synonyms)
  = option_map (fun _ => verb_entry v) (last_with v synonyms)
  /\
  get v (examples_section synonyms)
  = option_map example_entries (last_with v synonyms)
  /\
  (is_some (get v (examples_section synonyms)) = true
   <-> exists s, In s synonyms /\ verb s = v)
  /\
  (forall s,
     map text (example_entries s) = examples s /\
     map file (example_entries s)
     = map (example_file (verb s)) (seq 1 (List.length (examples s))) /\
     map voice (example_entries s)
     = map (fun _ => voice_for (verb s)) (examples s)).
Proof.
  assert (Hverbs : get v (verbs_section synonyms)
                   = option_map (fun _ => verb_entry v) (last_with v synonyms)).
  { unfold verbs_section.
    rewrite (get_after_loop verb (fun s => verb_entry (verb s))).
    fold (last_with v synonyms).
    destruct (last_with v synonyms) as [s|] eqn:Hlast; [|reflexivity].
    destruct (last_with_verb v synonyms s Hlast) as [_ ->]. reflexivity. }
  assert (Hexamples : get v (examples_section synonyms)
                      = option_map example_entries (last_with v synonyms)).
  { unfold examples_section. rewrite (get_after_loop verb example_entries).
    fold (last_with v synonyms).
    destruct (last_with v synonyms); reflexivity. }
  split; [exact Hverbs|]. split; [exact Hexamples|]. split.
  - rewrite Hexamples. destruct (last_with v synonyms) as [s|] eqn:Hlast; simpl.
    + split; [|reflexivity]. intros _. exists s.
      apply (last_with_verb v synonyms s Hlast).
    + split; [discriminate|]. intros (s & Hin & Hv). exfalso.
      exact (last_with_none v synonyms Hlast s Hin Hv).
  - apply example_entries_shape.
Qed.

(** X14. The examples of a verb go to files of their own: the file name
    tells the number of the example, so no two entries of one synonym
    share a file. *)
Theorem example_files_of_a_verb_differ (v : string) (s : synonym) :
  (forall i j, example_file v i = example_file v j -> i = j) /\
  NoDup (map file (example_entries s)).
Proof.
  assert (Hinj : forall w i j, example_file w i = example_file w j -> i = j).
  { intros w i j H. unfold example_file in H.
    apply append_cancel_left in H. apply append_cancel_left in H.
    apply append_cancel_left in H. apply append_cancel_right in H.
    apply str_of_nat_injective. exact H. }
  split; [apply Hinj|].
  destruct (example_entries_shape s) as (_ & Hfiles & _).
  rewrite Hfiles. apply injective_map_has_no_duplicates; [|apply seq_NoDup].
  intros i j. apply Hinj.
Qed.

End AudioMetadataFacts.

(* ===================================================================== *)
(** ** The narrative script *)
(* ===================================================================== *)

Section NarrativeFacts.
Import Dict PyMore NarrativeMetadata.

Lemma get_is_in {V} (k : string) (d : dict V) (v : V) :
  get k d = Some v -> In (k, v) d.
Proof.
  induction d as [|[k' v'] rest IH]; simpl; [discriminate|].
  destruct (String.eqb k k') eqn:Hk.
  - apply String.eqb_eq in Hk. subst k'. intros H. inversion H. auto.
  - auto.
Qed.

(** X15. The narrative script says it uses the same voice as the verb's
    pronunciation. It does so exactly for the verbs listed in its own
    [VERB_VOICES] and for the verbs that [generate_audio.py] gives the
    default voice [us_female_1]; every other verb of
    [VERB_VOICE_MAPPING], such as [observar], is narrated with
    [us_female_1] but pronounced with another voice. *)
Theorem narrative_voice_matches_the_verb_voice (v : string) :
  (GenerateNarrativeAudio.voice_for v = GenerateAudio.voice_for v
   <-> is_some (get v GenerateNarrativeAudio.VERB_VOICES) = true
       \/ GenerateAudio.voice_for v = "us_female_1")
  /\
  (get v GenerateNarrativeAudio.VERB_VOICES = None ->
   GenerateNarrativeAudio.voice_for v = "us_female_1").
Proof.
  unfold GenerateNarrativeAudio.voice_for, get_or.
  destruct (get v GenerateNarrativeAudio.VERB_VOICES) as [voice|] eqn:Hget.
  - split; [|discriminate]. split; [intros _; left; reflexivity|]. intros _.
    apply get_is_in in Hget. simpl in Hget.
    repeat (destruct Hget as [Heq | Hget];
            [inversion Heq; subst; reflexivity|]).
    contradiction.
  - split; [|reflexivity]. simpl. split.
    + intros H. right. symmetry. exact H.
    + intros [H | H]; [discriminate | symmetry; exact H].
Qed.

Lemma round_keeps_other_verbs (r : run) (s : synonym) (v : string) :
  String.eqb v (verb s) && has_narrative s = false ->
  get v (narratives (round r s)) = get v (narratives r).
Proof.
  unfold round, has_narrative. intros H.
  destruct (narrativeExperience s) as [n|]; [|reflexivity].
  simpl in *. rewrite andb_true_r in H. apply get_setitem_other. exact H.
Qed.

Lemma narratives_after_loop (synonyms : list synonym) (r : run) (v : string) :
  get v (narratives (fold_left round synonyms r))
  = match last_narrative v synonyms with
    | Some n => Some (entry_of v n)
    | None => get v (narratives r)
    end.
Proof.
  revert r. induction synonyms as [|s rest IH]; intros r; [reflexivity|].
  simpl fold_left. rewrite IH. unfold last_narrative. simpl rev.
  rewrite find_over_app.
  destruct (find (fun x => String.eqb v (verb x) && has_narrative x) (rev rest))
    as [found|] eqn:Hfound.
  - apply find_some in Hfound as [_ Hboth]. apply andb_prop in Hboth as [_ Hn].
    unfold has_narrative in Hn.
    destruct (narrativeExperience found); [reflexivity | discriminate].
  - simpl. destruct (String.eqb v (verb s) && has_narrative s) eqn:Hs.
    + apply andb_prop in Hs as [Hv Hn]. apply String.eqb_eq in Hv. subst v.
      unfold round, has_narrative in *.
      destruct (narrativeExperience s) as [n|]; [|discriminate].
      simpl. apply get_setitem_same.
    + apply round_keeps_other_verbs. exact Hs.
Qed.

Lemma counts_after_loop (synonyms : list synonym) (r : run) :
  narrative_count (fold_left round synonyms r)
  = narrative_count r + List.length (filter has_narrative synonyms) /\
  List.length (tasks (fold_left round synonyms r))
  = List.length (tasks r) + part_count synonyms.
Proof.
  revert r. induction synonyms as [|s rest IH]; intros r.
  - unfold part_count. simpl. lia.
  - simpl fold_left. destruct (IH (round r s)) as [Hc Ht]. rewrite Hc, Ht.
    unfold round, has_narrative, part_count. simpl.
    destruct (narrativeExperience s) as [n|]; simpl.
    + rewrite length_app. unfold part_tasks. rewrite length_map.
      destruct (enumerate_numbers 1 (parts n)) as [_ Hsnd].
      rewrite <- Hsnd at 2. rewrite length_map. lia.
    + lia.
Qed.

(** X16. [generate_narrative_audio] skips the synonyms without
    [narrativeExperience]. It counts one narrative per synonym that has
    one and queues one audio task per part of those. In the metadata, a
    verb narrated in this run gets the entry of its last narrative, with
    the parts numbered from one in order, each pointing at the file its
    task writes; the entry of every other verb is the one the metadata
    file already had, and a missing [narratives] section starts empty. *)
Theorem narratives_are_replaced_and_the_rest_is_kept
    (existing : option (dict narrative_entry)) (synonyms : list synonym)
    (v : string) :
  narrative_count (generate_narrative_audio existing synonyms)
  = List.length (filter has_narrative synonyms)
  /\
  List.length (tasks (generate_narrative_audio existing synonyms))
  = part_count synonyms
  /\
  get v (narratives (generate_narrative_audio existing synonyms))
  = match last_narrative v synonyms with
    | Some n => Some (entry_of v n)
    | None => match existing with
              | Some d => get v d
              | None => None
              end
    end
  /\
  (forall n,
     map partNumber (entry_parts (entry_of v n)) = seq 1 (List.length (parts n)) /\
     map text (entry_parts (entry_of v n)) = parts n /\
     map file (entry_parts (entry_of v n))
     = map (part_file v) (seq 1 (List.length (parts n))) /\
     map file (entry_parts (entry_of v n))
     = map (fun t => "assets/audio/narratives/" ++ task_file t) (part_tasks v n)).
Proof.
  unfold generate_narrative_audio.
  destruct (counts_after_loop synonyms
              (mk_run (match existing with Some d => d | None => [] end) [] 0))
    as [Hc Ht].
  split; [rewrite Hc; reflexivity|]. split; [rewrite Ht; reflexivity|]. split.
  - rewrite narratives_after_loop. destruct (last_narrative v synonyms);
      [reflexivity|]. destruct existing; reflexivity.
  - intros n. unfold entry_of. simpl. rewrite !map_map. simpl.
    destruct (enumerate_numbers 1 (parts n)) as [Hfst Hsnd].
    split; [exact Hfst|]. split; [exact Hsnd|]. split.
    + rewrite <- Hfst, map_map. reflexivity.
    + unfold part_tasks. rewrite map_map. reflexivity.
Qed.

End NarrativeFacts.

(* ===================================================================== *)
(** ** The steps written by the simulation workflow *)
(* ===================================================================== *)

Section Workflow.
Import Py OpenmmRunner OpenmmWorkflow.

(** The frames and the progress lines that [n] rounds add. *)
Lemma rounds_in_detail (total freq : nat) (rounds : list nat) (st : run_state) :
  let st' := fold_left (fun s _ => round total freq s) rounds st in
  frames st'
  = (frames st
     ++ map (fun k => currentStep st + k * freq) (seq 1 (List.length rounds)))%list
  /\
  log_lines st'
  = (log_lines st
     ++ map (fun k => (reported_step st + k * report_interval st, total))
          (seq 1 (List.length rounds)))%list.
Proof.
  revert st. induction rounds as [|r rest IH]; intros st.
  - simpl. rewrite !app_nil_r. split; reflexivity.
  - cbn [fold_left List.length]. destruct (IH (round total freq st)) as [Hf Hl].
    cbv zeta. rewrite Hf, Hl. cbn [round frames log_lines currentStep
      reported_step report_interval].
    rewrite <- !app_assoc. cbn [seq map app].
    rewrite <- (seq_shift (List.length rest) 1), !map_map.
    split; f_equal; f_equal.
    + f_equal. lia.
    + apply map_ext. intros k. lia.
    + f_equal. f_equal. lia.
    + apply map_ext. intros k. f_equal. lia.
Qed.

(** X17. With a positive [output_frequency], [run_simulation] takes one
    energy frame per round of the production run, and the frame of round
    [k] carries the step [total_steps // 10 + k * output_frequency]: the
    steps of the equilibration are counted in, while the progress line of
    the same round says [k * output_frequency] of [total_steps]. The two
    lists of steps agree exactly when [total_steps] is below ten. *)
Theorem energy_frames_count_the_equilibration (total freq : nat) :
  0 < freq ->
  exists st,
    run_simulation total freq = Return st /\
    frames st
    = map (fun k => total / 10 + k * freq) (seq 1 (rounds_needed total freq)) /\
    log_lines st
    = map (fun k => (k * freq, total)) (seq 1 (rounds_needed total freq)) /\
    total_frames st = rounds_needed total freq /\
    (map fst (log_lines st) = frames st <-> total < 10).
Proof.
  intros Hfreq.
  assert (Hstart : equilibration freq (total / 10) (fresh_run 0 freq)
                   = Return (mk_run (total / 10) [] freq 0 [])).
  { unfold equilibration, step, fresh_run.
    destruct (Nat.eqb_spec (total / 10) 0) as [-> | _]; [reflexivity|].
    destruct (Nat.eqb_spec freq 0) as [Hz | _]; [lia | reflexivity]. }
  unfold run_simulation. rewrite Hstart. unfold production_run, range.
  destruct (Nat.eqb_spec freq 0) as [Hz | _]; [lia|].
  eexists. split; [reflexivity|].
  pose proof (rounds_in_detail total freq (range_from total 0 total freq)
                (mk_run (total / 10) [] freq 0 [])) as H.
  cbv zeta in H. destruct H as [Hf Hl].
  rewrite range_from_length in Hf, Hl by lia.
  replace (total - 0) with total in * by lia.
  fold (rounds_needed total freq) in *.
  cbn [frames log_lines currentStep reported_step
       report_interval app Nat.add] in Hf, Hl.
  unfold total_frames. rewrite Hf, Hl, length_map, length_seq, map_map.
  cbn [fst].
  repeat split; try reflexivity.
  - intros Heq.
    destruct (rounds_needed total freq) as [|n] eqn:Hn.
    + unfold rounds_needed in Hn.
      destruct (Nat.eq_dec total 0) as [->|Hpos]; [lia|].
      assert (freq <= total + freq - 1) as Hle by lia.
      pose proof (Nat.Div0.div_le_mono freq (total + freq - 1) freq Hle) as Hd.
      rewrite Nat.div_same in Hd by lia. lia.
    + cbn [seq map] in Heq. injection Heq as H1 _.
      destruct (Nat.lt_ge_cases total 10) as [Hlt | Hge]; [exact Hlt|].
      pose proof (Nat.Div0.div_le_mono 10 total 10 Hge) as Hd.
      rewrite Nat.div_same in Hd by lia.
      change (fst (Nat.divmod total 9 0 9)) with (total / 10) in H1. lia.
  - intros Hlt. rewrite Nat.div_small by lia. reflexivity.
Qed.

End Workflow.

Section WorkflowWitness.
Import Py OpenmmRunner OpenmmWorkflow.

Lemma energy_frames_count_the_equilibration_witness :
  0 < 10 /\
  exists st,
    run_simulation 25 10 = Return st /\
    frames st = map (fun k => 25 / 10 + k * 10) (seq 1 (rounds_needed 25 10)) /\
    log_lines st = map (fun k => (k * 10, 25)) (seq 1 (rounds_needed 25 10)) /\
    total_frames st = rounds_needed 25 10 /\
    (map fst (log_lines st) = frames st <-> 25 < 10).
Proof.
  split; [lia | apply (energy_frames_count_the_equilibration 25 10); lia].
Defined.

End WorkflowWitness.

(* ===================================================================== *)
(** ** The document adapter on a laid-out document *)
(* ===================================================================== *)

Section DocumentLayout.
Import Scenes Text DocumentAdapter DocumentStructure.










End DocumentLayout.

Section DocumentLayoutWitness.
Import Scenes Text DocumentAdapter DocumentStructure Instances.


End DocumentLayoutWitness.
